(** * bluemonday: the helper matchers and composite policies of [helpers.go]

    A shallow embedding of the regular expressions declared in [helpers.go]
    and of the composite policy helpers built from them, together with the
    policy model they act on. *)

From Stdlib Require Import NArith Ascii String List Bool Lia DecimalString.
From stdpp Require Import base option list strings gmap fin_maps.

Local Open Scope N_scope.

(** ** Strings and runes

    A Go string is a sequence of bytes; [regexp] reads it rune by rune with
    [utf8.DecodeRuneInString]. *)

Definition rune := N.

Definition RuneError : rune := 0xFFFD.

Definition bytes (s : string) : list N := map N_of_ascii (list_ascii_of_string s).

Definition cont (b : N) : bool := (0x80 <=? b) && (b <=? 0xBF).

(** Lowest and highest accepted second byte for a leading byte, the
    [acceptRanges] of package [utf8]. *)
Definition acceptLo (b0 : N) : N :=
  if b0 =? 0xE0 then 0xA0 else if b0 =? 0xF0 then 0x90 else 0x80.

Definition acceptHi (b0 : N) : N :=
  if b0 =? 0xED then 0x9F else if b0 =? 0xF4 then 0x8F else 0xBF.

Definition second (b0 b1 : N) : bool := (acceptLo b0 <=? b1) && (b1 <=? acceptHi b0).

(** The payload of a continuation byte, [b & 0x3F] for [b] in 0x80..0xBF. *)
Definition low6 (b : N) : N := b - 0x80.

(** [utf8.DecodeRuneInString]: the first rune of [s] and its width in bytes;
    an invalid encoding yields [RuneError] with width 1. The leading byte
    gives its low 5, 4 or 3 bits, each continuation byte its low 6 bits. *)
Definition DecodeRune (s : list N) : rune * nat :=
  match s with
  | [] => (RuneError, 0%nat)
  | b0 :: t =>
    if b0 <? 0x80 then (b0, 1%nat)
    else if (b0 <? 0xC2) || (0xF4 <? b0) then (RuneError, 1%nat)
    else if b0 <? 0xE0 then
      match t with
      | b1 :: _ =>
        if second b0 b1
        then ((b0 - 0xC0) * 64 + low6 b1, 2%nat)
        else (RuneError, 1%nat)
      | _ => (RuneError, 1%nat)
      end
    else if b0 <? 0xF0 then
      match t with
      | b1 :: b2 :: _ =>
        if second b0 b1 && cont b2
        then ((b0 - 0xE0) * 4096 + low6 b1 * 64 + low6 b2, 3%nat)
        else (RuneError, 1%nat)
      | _ => (RuneError, 1%nat)
      end
    else
      match t with
      | b1 :: b2 :: b3 :: _ =>
        if second b0 b1 && cont b2 && cont b3
        then ((b0 - 0xF0) * 262144 + low6 b1 * 4096 + low6 b2 * 64 + low6 b3, 4%nat)
        else (RuneError, 1%nat)
      | _ => (RuneError, 1%nat)
      end
  end.

Fixpoint decode_loop (fuel : nat) (s : list N) : list rune :=
  match fuel with
  | O => []
  | S fuel' =>
    match s with
    | [] => []
    | _ :: _ => let '(r, w) := DecodeRune s in r :: decode_loop fuel' (drop w s)
    end
  end.

(** The runes of a string; every step consumes at least one byte, so the
    length of the input is fuel enough. *)
Definition decode (s : string) : list rune :=
  decode_loop (length (bytes s)) (bytes s).

(** ** Regular expressions

    The syntax tree keeps the shape of the pattern text (escapes, groups,
    flags), so that [show] gives back the text passed to
    [regexp.MustCompile]. *)

Inductive perl := Pd | Ps.

Inductive item :=
| IChr (c : ascii)
| IEsc (c : ascii)
| IRange (lo hi : ascii)
| IPerl (k : perl)
| IUni (name : string).

Inductive regex :=
| Eps
| Chr (c : ascii)
| Esc (c : ascii)
| Perl (k : perl)
| CharClass (neg : bool) (items : list item)
| Bol
| Eol
| Cat (r1 r2 : regex)
| Alt (r1 r2 : regex)
| Star (r : regex)
| Plus (r : regex)
| Quest (r : regex)
| Rep (r : regex) (lo : nat) (hi : option nat)
| Cap (r : regex)
| NCap (r : regex)
| Fold (r : regex).

(** [lit "abc"] is the pattern [abc]. *)
Fixpoint lit (s : string) : regex :=
  match s with
  | EmptyString => Eps
  | String c EmptyString => Chr c
  | String c s' => Cat (Chr c) (lit s')
  end.

Fixpoint cat (rs : list regex) : regex :=
  match rs with
  | [] => Eps
  | [r] => r
  | r :: rs' => Cat r (cat rs')
  end.

Fixpoint alt (rs : list regex) : regex :=
  match rs with
  | [] => Eps
  | [r] => r
  | r :: rs' => Alt r (alt rs')
  end.

(** *** Pattern text *)

Definition show_nat (n : nat) : string := NilZero.string_of_uint (Nat.to_uint n).

Definition show_perl (k : perl) : string :=
  match k with Pd => "\d" | Ps => "\s" end.

Definition show_item (i : item) : string :=
  match i with
  | IChr c => String c ""
  | IEsc c => String "\" (String c "")
  | IRange lo hi => String lo (String "-" (String hi ""))
  | IPerl k => show_perl k
  | IUni name => "\p{" +:+ name +:+ "}"
  end.

Fixpoint show (r : regex) : string :=
  match r with
  | Eps => ""
  | Chr c => String c ""
  | Esc c => String "\" (String c "")
  | Perl k => show_perl k
  | CharClass neg items =>
    "[" +:+ (if neg then "^" else "") +:+ String.concat "" (map show_item items) +:+ "]"
  | Bol => "^"
  | Eol => "$"
  | Cat r1 r2 => show r1 +:+ show r2
  | Alt r1 r2 => show r1 +:+ "|" +:+ show r2
  | Star r1 => show r1 +:+ "*"
  | Plus r1 => show r1 +:+ "+"
  | Quest r1 => show r1 +:+ "?"
  | Rep r1 lo hi =>
    show r1 +:+ "{" +:+ show_nat lo +:+
    match hi with
    | Some h => if Nat.eqb h lo then "" else "," +:+ show_nat h
    | None => ","
    end +:+ "}"
  | Cap r1 => "(" +:+ show r1 +:+ ")"
  | NCap r1 => "(?:" +:+ show r1 +:+ ")"
  | Fold r1 => "(?i)" +:+ show r1
  end.

(** *** Well-formed trees

    [show] flattens the tree; [wf] holds of the trees whose text parses back
    to them: a repetition applies to a single atom, an alternation is not a
    direct operand of a concatenation or repetition, a flag group opens its
    enclosing group, and literals are not metacharacters. *)

Inductive level := LTop | LAlt | LCat | LRep.

Definition atop (l : level) : bool := match l with LTop => true | _ => false end.
Definition aalt (l : level) : bool := match l with LTop | LAlt => true | _ => false end.
Definition arep (l : level) : bool := match l with LRep => true | _ => false end.

Definition is_meta (c : ascii) : bool :=
  existsb (Ascii.eqb c) (list_ascii_of_string "\.+*?()|[]{}^$").

Definition is_alnum (c : ascii) : bool :=
  let n := N_of_ascii c in
  ((48 <=? n) && (n <=? 57)) || ((65 <=? n) && (n <=? 90)) || ((97 <=? n) && (n <=? 122)).

Definition is_punct (c : ascii) : bool :=
  let n := N_of_ascii c in (33 <=? n) && (n <=? 126) && negb (is_alnum c).

Definition wf_item (first last : bool) (i : item) : bool :=
  match i with
  | IChr c =>
    negb (existsb (Ascii.eqb c) (list_ascii_of_string "]\^")) &&
    (negb (Ascii.eqb c "-") || first || last)
  | IEsc c => is_punct c
  | IRange lo hi => is_alnum lo && is_alnum hi && (N_of_ascii lo <=? N_of_ascii hi)
  | IPerl _ => true
  | IUni name => existsb (String.eqb name) ["L"; "N"]%string
  end.

Fixpoint wf_items (first : bool) (items : list item) : bool :=
  match items with
  | [] => true
  | [i] => wf_item first true i
  | i :: items' => wf_item first false i && wf_items false items'
  end.

Fixpoint wf (l : level) (r : regex) : bool :=
  match r with
  | Eps => aalt l
  | Chr c => negb (is_meta c)
  | Esc c => is_punct c
  | Perl _ => true
  | CharClass _ items => negb (Nat.eqb (length items) 0) && wf_items true items
  | Bol | Eol => negb (arep l)
  | Cat r1 r2 => negb (arep l) && wf LCat r1 && wf LCat r2
  | Alt r1 r2 => aalt l && wf LAlt r1 && wf LAlt r2
  | Star r1 | Plus r1 | Quest r1 => negb (arep l) && wf LRep r1
  | Rep r1 lo hi =>
    negb (arep l) && wf LRep r1 &&
    match hi with Some h => Nat.leb lo h | None => true end
  | Cap r1 | NCap r1 => wf LTop r1
  | Fold r1 => atop l && wf LAlt r1
  end.

(** *** Matching *)

Definition is_upper (x : rune) : bool := (65 <=? x) && (x <=? 90).
Definition is_lower (x : rune) : bool := (97 <=? x) && (x <=? 122).

(** The runes that [unicode.SimpleFold] links to [x], for the orbits that
    meet ASCII: a letter and its other case, and the two longer orbits
    k, K, U+212A (Kelvin sign) and s, S, U+017F (long s). *)
Definition orbit (x : rune) : list rune :=
  if (x =? 107) || (x =? 75) || (x =? 0x212A) then [107; 75; 0x212A]
  else if (x =? 115) || (x =? 83) || (x =? 0x17F) then [115; 83; 0x17F]
  else if is_upper x then [x; x + 32]
  else if is_lower x then [x; x - 32]
  else [x].

Definition variants (fold : bool) (x : rune) : list rune :=
  if fold then orbit x else [x].

(** Perl classes are ASCII-only: [\d] is [0-9], [\s] is [\t\n\f\r ]. *)
Definition in_perl (k : perl) (x : rune) : bool :=
  match k with
  | Pd => (48 <=? x) && (x <=? 57)
  | Ps => existsb (N.eqb x) [9; 10; 12; 13; 32]
  end.

(** An ASCII digit, as a byte of a string. *)
Definition is_digit (c : ascii) : bool := in_perl Pd (N_of_ascii c).

Definition eq_char (fold : bool) (c : ascii) (x : rune) : bool :=
  existsb (N.eqb (N_of_ascii c)) (variants fold x).

(** A matcher in continuation-passing style: [k at0 rest] is asked whether
    the remainder of the pattern matches [rest]; [at0] tells whether the
    position is the beginning of the text. *)
Definition cont_t := bool -> list rune -> bool.
Definition kmatcher := cont_t -> cont_t.

(** Zero or more iterations; an iteration that consumes nothing is not
    repeated, so [length s] bounds the number of iterations. *)
Fixpoint star (f : kmatcher) (k : cont_t) (n : nat) (at0 : bool) (s : list rune) : bool :=
  k at0 s ||
  match n with
  | O => false
  | S n' =>
    f (fun a s' => Nat.ltb (length s') (length s) && star f k n' a s') at0 s
  end.

Fixpoint times (f : kmatcher) (n : nat) (k : cont_t) : cont_t :=
  match n with
  | O => k
  | S n' => f (times f n' k)
  end.

Fixpoint upto (f : kmatcher) (n : nat) (k : cont_t) (at0 : bool) (s : list rune) : bool :=
  k at0 s ||
  match n with
  | O => false
  | S n' => f (upto f n' k) at0 s
  end.

(** Languages in context: a predicate on the text before a match, the match
    and the text after it. [Seq] is concatenation, [Iter P n] is [n]
    iterations of [P]. *)
Definition lang := list rune -> list rune -> list rune -> Prop.

Definition Seq (P Q : lang) : lang :=
  fun pre mid post =>
    exists s1 s2, mid = s1 ++ s2 /\ P pre s1 (s2 ++ post) /\ Q (pre ++ s1) s2 post.

Fixpoint Iter (P : lang) (n : nat) : lang :=
  match n with
  | O => fun _ mid _ => mid = []
  | S n' => Seq P (Iter P n')
  end.

Definition nil_b (l : list rune) : bool :=
  match l with
  | [] => true
  | _ :: _ => false
  end.

(** [f] decides [P]: run at the position after [pre], it succeeds exactly
    when some prefix of the input is in [P] and the continuation accepts
    what follows. *)
Definition decides (f : kmatcher) (P : lang) : Prop :=
  forall (k : cont_t) (pre s : list rune),
    f k (nil_b pre) s = true <->
    exists s1 s2, s = s1 ++ s2 /\ P pre s1 s2 /\ k (nil_b (pre ++ s1)) s2 = true.

Section Matching.

(** The range tables of package [unicode] ([unicode.L], [unicode.N]) are
    not part of the repository: [unicode name x] tells whether rune [x] is
    in the category [name]. *)
Variable unicode : string -> rune -> bool.

Definition in_item (i : item) (x : rune) : bool :=
  match i with
  | IChr c | IEsc c => x =? N_of_ascii c
  | IRange lo hi => (N_of_ascii lo <=? x) && (x <=? N_of_ascii hi)
  | IPerl k => in_perl k x
  | IUni name => unicode name x
  end.

Definition in_class (fold neg : bool) (items : list item) (x : rune) : bool :=
  xorb neg (existsb (fun y => existsb (fun i => in_item i y) items) (variants fold x)).

Definition one (p : rune -> bool) (k : cont_t) : cont_t :=
  fun _ s => match s with
             | x :: t => p x && k false t
             | [] => false
             end.

Fixpoint m (fold : bool) (r : regex) (k : cont_t) (at0 : bool) (s : list rune)
  {struct r} : bool :=
  match r with
  | Eps => k at0 s
  | Chr c | Esc c => one (eq_char fold c) k at0 s
  | Perl p => one (in_perl p) k at0 s
  | CharClass neg items => one (in_class fold neg items) k at0 s
  | Bol => at0 && k at0 s
  | Eol => match s with [] => k at0 s | _ :: _ => false end
  | Cat r1 r2 => m fold r1 (m fold r2 k) at0 s
  | Alt r1 r2 => m fold r1 k at0 s || m fold r2 k at0 s
  | Star r1 => star (m fold r1) k (length s) at0 s
  | Plus r1 => m fold r1 (fun a s' => star (m fold r1) k (length s') a s') at0 s
  | Quest r1 => m fold r1 k at0 s || k at0 s
  | Rep r1 lo hi =>
    times (m fold r1) lo
      (match hi with
       | Some h => upto (m fold r1) (h - lo) k
       | None => fun a s' => star (m fold r1) k (length s') a s'
       end) at0 s
  | Cap r1 | NCap r1 => m fold r1 k at0 s
  | Fold r1 => m true r1 k at0 s
  end.

Definition accept : cont_t := fun _ _ => true.

(** A match may start at any position of the text. *)
Fixpoint search (r : regex) (at0 : bool) (s : list rune) : bool :=
  m false r accept at0 s ||
  match s with
  | [] => false
  | _ :: t => search r false t
  end.

(** [Regexp.MatchString]: does the text contain a match of [re]? *)
Definition MatchString (re : regex) (s : string) : bool :=
  search re true (decode s).

(** *** What a pattern denotes

    [Matches fold r pre mid post]: in the text [pre ++ mid ++ post], the
    pattern [r] matches the part [mid]. The text around the match matters
    to the anchors only. *)

Fixpoint Matches (fold : bool) (r : regex) (pre mid post : list rune) {struct r} : Prop :=
  match r with
  | Eps => mid = []
  | Chr c | Esc c => exists x, mid = [x] /\ eq_char fold c x = true
  | Perl p => exists x, mid = [x] /\ in_perl p x = true
  | CharClass neg items => exists x, mid = [x] /\ in_class fold neg items x = true
  | Bol => pre = [] /\ mid = []
  | Eol => mid = [] /\ post = []
  | Cat r1 r2 => Seq (Matches fold r1) (Matches fold r2) pre mid post
  | Alt r1 r2 => Matches fold r1 pre mid post \/ Matches fold r2 pre mid post
  | Star r1 => exists n, Iter (Matches fold r1) n pre mid post
  | Plus r1 => exists n, Iter (Matches fold r1) (S n) pre mid post
  | Quest r1 => Matches fold r1 pre mid post \/ mid = []
  | Rep r1 lo hi =>
    exists n, (lo <= n)%nat /\
              match hi with
              | Some h => (n <= lo + (h - lo))%nat
              | None => True
              end /\
              Iter (Matches fold r1) n pre mid post
  | Cap r1 | NCap r1 => Matches fold r1 pre mid post
  | Fold r1 => Matches true r1 pre mid post
  end.

(** The text has a match of [r]. *)
Definition HasMatch (r : regex) (text : list rune) : Prop :=
  exists pre mid post, text = pre ++ mid ++ post /\ Matches false r pre mid post.

End Matching.

(** ** The regular expressions of [helpers.go] *)

Definition digit : regex := CharClass false [IRange "0" "9"].
Definition d : regex := Perl Pd.
Definition range (lo hi : ascii) : regex := CharClass false [IRange lo hi].
Definition oneof (s : string) : regex := CharClass false (map IChr (list_ascii_of_string s)).

Definition CellAlign : regex :=
  Fold (alt [lit "center"; lit "justify"; lit "left"; lit "right"; lit "char"]).

Definition CellVerticalAlign : regex :=
  Fold (alt [lit "baseline"; lit "bottom"; lit "middle"; lit "top"]).

Definition Direction : regex := Fold (alt [lit "rtl"; lit "ltr"]).

Definition ImageAlign : regex :=
  Fold (alt [lit "left"; lit "right"; lit "top"; lit "texttop"; lit "middle";
             lit "absmiddle"; lit "baseline"; lit "bottom"; lit "absbottom"]).

Definition Integer : regex := Plus digit.

(** The date part of [ISO8601]: month and optional day, week and optional
    weekday, or day of the year. *)
Definition iso_calendar : regex :=
  cat [Cap (alt [cat [Chr "0"; range "1" "9"]; cat [Chr "1"; range "0" "2"]]);
       Quest (Cap (alt [cat [oneof "12"; d]; cat [Chr "0"; range "1" "9"];
                        cat [Chr "3"; oneof "01"]]))].

Definition iso_week : regex :=
  cat [Chr "W";
       Cap (alt [cat [range "0" "4"; d]; cat [Chr "5"; range "0" "2"]]);
       Quest (Cap (cat [Quest (Chr "-"); range "1" "7"]))].

Definition iso_ordinal : regex :=
  Cap (alt [cat [Chr "0"; Chr "0"; range "1" "9"];
            cat [Chr "0"; range "1" "9"; d];
            cat [oneof "12"; Rep d 2 (Some 2%nat)];
            cat [Chr "3"; Cap (alt [cat [range "0" "5"; d];
                                    cat [Chr "6"; range "1" "6"]])]]).

Definition iso_hour : regex :=
  Cap (alt [cat [oneof "01"; d]; cat [Chr "2"; range "0" "3"]]).

Definition iso_fraction : list item := [IEsc "."; IChr ","].

Definition iso_sign : regex := CharClass false [IEsc "+"; IChr "-"].

(** The time part of [ISO8601], from the [T] or blank on. *)
Definition iso_time : regex :=
  cat [CharClass false [IChr "T"; IPerl Ps];
       Quest (Cap (cat [
         Cap (alt [cat [iso_hour;
                        Quest (Cap (cat [Cap (Quest (Chr ":")); range "0" "5"; d]))];
                   cat [Chr "2"; Chr "4"; Quest (Esc ":"); Chr "0"; Chr "0"]]);
         Quest (Cap (cat [CharClass false iso_fraction; Plus d;
                          CharClass true [IChr ":"]]))]));
       Quest (Cap (cat [range "0" "5"; d;
                        Quest (Cap (cat [CharClass false iso_fraction; Plus d]))]));
       Quest (Cap (alt [oneof "zZ";
                        cat [Cap iso_sign; iso_hour; Quest (Chr ":");
                             Quest (Cap (cat [range "0" "5"; d]))]]))].

Definition ISO8601 : regex :=
  cat [Bol;
       Cap (cat [Quest iso_sign; Rep d 4 (Some 4%nat)]);
       Quest (Cap (cat [Cap (Quest (Chr "-"));
                        Cap (alt [iso_calendar; iso_week; iso_ordinal]);
                        Quest (Cap iso_time)]));
       Eol].

Definition ListType : regex :=
  Fold (alt [lit "circle"; lit "disc"; lit "square"; lit "a"; lit "A"; lit "i";
             lit "I"; lit "1"]).

Definition NamesAndSpaces : regex :=
  Plus (CharClass false [IRange "a" "z"; IRange "A" "Z"; IRange "0" "9";
                         IEsc "-"; IChr "_"; IEsc "$"]).

Definition Number : regex :=
  cat [Bol; Quest (oneof "-+"); Star digit; Quest (Esc "."); Plus digit; Eol].

Definition NumberOrPercent : regex := cat [Plus digit; Quest (Chr "%")].

Definition Paragraph : regex :=
  Star (CharClass false
          [IUni "L"; IUni "N"; IPerl Ps; IEsc "-"; IChr "_"; IChr "'"; IChr ",";
           IChr ":"; IEsc "["; IEsc "]"; IChr "!"; IEsc "."; IChr "/"; IEsc "\";
           IEsc "("; IEsc ")"; IChr "&"]).

(** The patterns compiled in place by the composite helpers. *)

Definition Lang : regex :=
  Rep (CharClass false [IRange "a" "z"; IRange "A" "Z"]) 2 (Some 20%nat).

Definition Id : regex :=
  Plus (CharClass false [IRange "a" "z"; IRange "A" "Z"; IRange "0" "9";
                         IEsc ":"; IEsc "-"; IChr "_"; IEsc "."]).

Definition CellScope : regex :=
  Fold (cat [NCap (alt [lit "row"; lit "col"]); Quest (NCap (lit "group"))]).

Definition Nowrap : regex := Fold (alt [Eps; lit "nowrap"]).

(** ** The policy

    [helpers.go] calls the builder methods of [Policy]; the type and its
    methods are declared in other files of the package. *)

(** Modelled from the spec: the [URLPolicy] of the data model (the fields
    [RequireParseableURLs], [AllowRelativeURLs], [AllowURLSchemes] and
    [RequireNoFollowOnLinks] write). [noFollowElements] holds the elements
    configured in addition to [a], [area] and [link]. *)
Record URLPolicy := {
  requireParseable : bool;
  allowRelative : bool;
  allowedSchemes : gset string;
  forceNoFollow : bool;
  noFollowElements : gset string
}.

(** Modelled from the spec: the [Policy] of the data model. An attribute rule
    is the value matcher bound to an attribute name, [None] when the rule
    has no value matcher; element-scoped rules are kept per element and per
    attribute name, global rules per attribute name, so that a later
    registration for the same key replaces the earlier one. *)
Record Policy := {
  elements : gset string;
  elementAttributes : gmap string (gmap string (option regex));
  globalAttributes : gmap string (option regex);
  urlPolicy : URLPolicy
}.

Definition emptyURLPolicy : URLPolicy :=
  {| requireParseable := false; allowRelative := false; allowedSchemes := ∅;
     forceNoFollow := false; noFollowElements := ∅ |}.

(** The policy with no rules, before any builder call. *)
Definition emptyPolicy : Policy :=
  {| elements := ∅; elementAttributes := ∅; globalAttributes := ∅;
     urlPolicy := emptyURLPolicy |}.

(** Modelled from the spec: the builder that [AllowAttrs] returns, holding
    the policy it will write to, the attribute names and the matcher given
    by [Matching]. *)
Record attrPolicyBuilder := {
  bp : Policy;
  attrNames : list string;
  regexp : option regex
}.

Definition setElements (f : gset string -> gset string) (p : Policy) : Policy :=
  {| elements := f (elements p); elementAttributes := elementAttributes p;
     globalAttributes := globalAttributes p; urlPolicy := urlPolicy p |}.

Definition setElementAttributes
  (f : gmap string (gmap string (option regex)) -> gmap string (gmap string (option regex)))
  (p : Policy) : Policy :=
  {| elements := elements p; elementAttributes := f (elementAttributes p);
     globalAttributes := globalAttributes p; urlPolicy := urlPolicy p |}.

Definition setGlobalAttributes
  (f : gmap string (option regex) -> gmap string (option regex)) (p : Policy) : Policy :=
  {| elements := elements p; elementAttributes := elementAttributes p;
     globalAttributes := f (globalAttributes p); urlPolicy := urlPolicy p |}.

Definition setURLPolicy (f : URLPolicy -> URLPolicy) (p : Policy) : Policy :=
  {| elements := elements p; elementAttributes := elementAttributes p;
     globalAttributes := globalAttributes p; urlPolicy := f (urlPolicy p) |}.

(** The rule of attribute [a] on element [e] becomes [r]. *)
Definition setRule (e a : string) (r : option regex)
  (ea : gmap string (gmap string (option regex))) : gmap string (gmap string (option regex)) :=
  <[e := <[a := r]> (default ∅ (ea !! e))]> ea.

(** Modelled from the spec: [allowElements(names...)] registers an element
    rule for each name. *)
Definition AllowElements (names : list string) (p : Policy) : Policy :=
  foldl (fun p e => setElements (fun s => {[e]} ∪ s) p) p names.

(** Modelled from the spec: [allowAttribute(name)], for the several names
    [helpers.go] passes in one call. *)
Definition AllowAttrs (p : Policy) (names : list string) : attrPolicyBuilder :=
  {| bp := p; attrNames := names; regexp := None |}.

(** Modelled from the spec: [matching(matcher)]. *)
Definition Matching (re : regex) (b : attrPolicyBuilder) : attrPolicyBuilder :=
  {| bp := bp b; attrNames := attrNames b; regexp := Some re |}.

(** Modelled from the spec: [onElements(names...)] registers one attribute
    rule per named element and attribute name; the named elements become
    admissible through these rules. *)
Definition OnElements (els : list string) (b : attrPolicyBuilder) : Policy :=
  foldl (fun p e =>
           foldl (fun p a => setElementAttributes (setRule e a (regexp b)) p)
                 p (attrNames b))
        (bp b) els.

(** Modelled from the spec: [globally()] registers one global attribute rule
    per attribute name. *)
Definition Globally (b : attrPolicyBuilder) : Policy :=
  foldl (fun p a => setGlobalAttributes (insert a (regexp b)) p) (bp b) (attrNames b).

Definition lower_ascii (c : ascii) : ascii :=
  let n := N_of_ascii c in
  if (65 <=? n) && (n <=? 90) then ascii_of_N (n + 32) else c.

(** [strings.ToLower], on the ASCII letters. *)
Fixpoint ToLower (s : string) : string :=
  match s with
  | EmptyString => EmptyString
  | String c s' => String (lower_ascii c) (ToLower s')
  end.

(** Modelled from the spec: the four setters of the URL policy. Schemes are
    kept in lower case; [AllowURLSchemes] makes the given schemes the
    allowed ones. *)
Definition RequireParseableURLs (b : bool) (p : Policy) : Policy :=
  setURLPolicy (fun u =>
    {| requireParseable := b; allowRelative := allowRelative u;
       allowedSchemes := allowedSchemes u; forceNoFollow := forceNoFollow u;
       noFollowElements := noFollowElements u |}) p.

Definition AllowRelativeURLs (b : bool) (p : Policy) : Policy :=
  setURLPolicy (fun u =>
    {| requireParseable := requireParseable u; allowRelative := b;
       allowedSchemes := allowedSchemes u; forceNoFollow := forceNoFollow u;
       noFollowElements := noFollowElements u |}) p.

Definition AllowURLSchemes (schemes : list string) (p : Policy) : Policy :=
  setURLPolicy (fun u =>
    {| requireParseable := requireParseable u; allowRelative := allowRelative u;
       allowedSchemes := list_to_set (map ToLower schemes);
       forceNoFollow := forceNoFollow u;
       noFollowElements := noFollowElements u |}) p.

Definition RequireNoFollowOnLinks (b : bool) (p : Policy) : Policy :=
  setURLPolicy (fun u =>
    {| requireParseable := requireParseable u; allowRelative := allowRelative u;
       allowedSchemes := allowedSchemes u; forceNoFollow := b;
       noFollowElements := noFollowElements u |}) p.

Notation "x |> f" := (f x) (at level 68, left associativity, only parsing).

(** ** The composite helpers of [helpers.go]

    Each method mutates the policy it is called on; here it maps the policy
    before the call to the policy after it. *)

Definition AllowStandardURLs (p : Policy) : Policy :=
  let p := RequireParseableURLs true p in
  let p := AllowRelativeURLs true p in
  let p := AllowURLSchemes ["mailto"; "http"; "https"] p in
  RequireNoFollowOnLinks true p.

Definition AllowStandardAttributes (p : Policy) : Policy :=
  let p := AllowAttrs p ["dir"] |> Matching Direction |> Globally in
  let p := AllowAttrs p ["lang"] |> Matching Lang |> Globally in
  let p := AllowAttrs p ["id"] |> Matching Id |> Globally in
  AllowAttrs p ["title"] |> Matching Paragraph |> Globally.

Definition AllowImages (p : Policy) : Policy :=
  let p := AllowAttrs p ["align"] |> Matching ImageAlign |> OnElements ["img"] in
  let p := AllowAttrs p ["alt"] |> Matching Paragraph |> OnElements ["img"] in
  let p := AllowAttrs p ["height"; "width"] |> Matching NumberOrPercent
             |> OnElements ["img"] in
  let p := AllowStandardURLs p in
  AllowAttrs p ["src"] |> OnElements ["img"].

Definition AllowLists (p : Policy) : Policy :=
  let p := AllowAttrs p ["type"] |> Matching ListType |> OnElements ["ol"; "ul"] in
  let p := AllowAttrs p ["type"] |> Matching ListType |> OnElements ["li"] in
  let p := AllowAttrs p ["value"] |> Matching Integer |> OnElements ["li"] in
  AllowElements ["dl"; "dt"; "dd"] p.

Definition AllowTables (p : Policy) : Policy :=
  let p := AllowAttrs p ["height"; "width"] |> Matching NumberOrPercent
             |> OnElements ["table"] in
  let p := AllowAttrs p ["summary"] |> Matching Paragraph |> OnElements ["table"] in
  let p := AllowElements ["caption"] p in
  let p := AllowAttrs p ["align"] |> Matching CellAlign
             |> OnElements ["col"; "colgroup"] in
  let p := AllowAttrs p ["height"; "width"] |> Matching NumberOrPercent
             |> OnElements ["col"; "colgroup"] in
  let p := AllowAttrs p ["span"] |> Matching Integer
             |> OnElements ["colgroup"; "col"] in
  let p := AllowAttrs p ["valign"] |> Matching CellVerticalAlign
             |> OnElements ["col"; "colgroup"] in
  let p := AllowAttrs p ["align"] |> Matching CellAlign
             |> OnElements ["thead"; "tr"] in
  let p := AllowAttrs p ["valign"] |> Matching CellVerticalAlign
             |> OnElements ["thead"; "tr"] in
  let p := AllowAttrs p ["abbr"] |> Matching Paragraph |> OnElements ["td"; "th"] in
  let p := AllowAttrs p ["align"] |> Matching CellAlign |> OnElements ["td"; "th"] in
  let p := AllowAttrs p ["colspan"; "rowspan"] |> Matching Integer
             |> OnElements ["td"; "th"] in
  let p := AllowAttrs p ["headers"] |> Matching NamesAndSpaces
             |> OnElements ["td"; "th"] in
  let p := AllowAttrs p ["height"; "width"] |> Matching NumberOrPercent
             |> OnElements ["td"; "th"] in
  let p := AllowAttrs p ["scope"] |> Matching CellScope |> OnElements ["td"; "th"] in
  let p := AllowAttrs p ["valign"] |> Matching CellVerticalAlign
             |> OnElements ["td"; "th"] in
  let p := AllowAttrs p ["nowrap"] |> Matching Nowrap |> OnElements ["td"; "th"] in
  let p := AllowAttrs p ["align"] |> Matching CellAlign
             |> OnElements ["tbody"; "tfoot"] in
  AllowAttrs p ["valign"] |> Matching CellVerticalAlign
    |> OnElements ["tbody"; "tfoot"].

(** ** URL admission *)

Definition is_alpha (c : ascii) : bool :=
  let n := N_of_ascii c in ((65 <=? n) && (n <=? 90)) || ((97 <=? n) && (n <=? 122)).

Definition is_scheme_extra (c : ascii) : bool :=
  let n := N_of_ascii c in
  ((48 <=? n) && (n <=? 57)) || existsb (Ascii.eqb c) (list_ascii_of_string "+-.").

Inductive scheme_result :=
| NoScheme
| SchemeOf (scheme : string)
| MissingScheme.

Definition push (c : ascii) (r : scheme_result) : scheme_result :=
  match r with
  | SchemeOf s => SchemeOf (String c s)
  | _ => r
  end.

(** The scheme split of [net/url]: the text before the first [:] when it is
    a letter followed by letters, digits, [+], [-] or [.]; a text that
    starts with [:] is an error. *)
Fixpoint getScheme (first : bool) (rawURL : string) : scheme_result :=
  match rawURL with
  | EmptyString => NoScheme
  | String c rest =>
    if is_alpha c then push c (getScheme false rest)
    else if is_scheme_extra c then
      if first then NoScheme else push c (getScheme false rest)
    else if Ascii.eqb c ":" then
      if first then MissingScheme else SchemeOf ""
    else NoScheme
  end.

Record URL := { Scheme : string }.

(** Modelled from the spec: the structural parse of URL admission, after
    [net/url.Parse]; of the parsed URL only the scheme is read, so only the
    scheme split is modelled, and a text fails to parse when that split
    fails. The scheme is lower-cased, an empty scheme means a relative URL. *)
Definition url_Parse (rawURL : string) : option URL :=
  match getScheme true rawURL with
  | MissingScheme => None
  | NoScheme => Some {| Scheme := "" |}
  | SchemeOf s => Some {| Scheme := ToLower s |}
  end.

Definition IsAbs (u : URL) : bool := negb (String.eqb (Scheme u) "").

Definition linkElements : list string := ["a"; "area"; "link"].

Definition isNoFollowElement (up : URLPolicy) (e : string) : bool :=
  existsb (String.eqb e) linkElements || bool_decide (e ∈ noFollowElements up).

(** Scheme membership, case-insensitive. *)
Definition schemeAllowed (up : URLPolicy) (scheme : string) : bool :=
  existsb (fun s => String.eqb (ToLower s) (ToLower scheme))
          (base.elements (allowedSchemes up)).

(** An attribute to inject on the emitted element: its name and the tokens
    its value must contain. *)
Definition injected := (string * list string)%type.

(** Modelled from the spec: [admit(attributeName, rawURL, elementName)] of
    the URL policy, steps 1 to 3. [None] is a reject; an accept returns the
    value and the attributes to inject. *)
Definition admitURL (up : URLPolicy) (attributeName rawURL elementName : string)
  : option (string * list injected) :=
  let parsed := url_Parse rawURL in
  if requireParseable up && negb (bool_decide (is_Some parsed)) then None
  else
    let u := default {| Scheme := "" |} parsed in
    if if IsAbs u then schemeAllowed up (Scheme u) else allowRelative up
    then Some (rawURL,
               if forceNoFollow up && isNoFollowElement up elementName
               then [("rel", ["nofollow"])] else [])
    else None.

(** Modelled from the spec: the injected tokens are merged into the tokens
    the attribute already has; the existing tokens stay, a token already
    there is not repeated. *)
Definition mergeTokens (existing required : list string) : list string :=
  existing ++ filter (fun t => t ∉ existing) required.

(** Modelled from the spec: the attributes of the emitted element, as token
    lists, after an injection. *)
Fixpoint inject (attrs : list injected) (i : injected) : list injected :=
  match attrs with
  | [] => [i]
  | (n, v) :: attrs' =>
    if String.eqb n (fst i) then (n, mergeTokens v (snd i)) :: attrs'
    else (n, v) :: inject attrs' i
  end.

(** The tokens of the first attribute called [name]. *)
Fixpoint attr (name : string) (attrs : list injected) : option (list string) :=
  match attrs with
  | [] => None
  | (n, v) :: attrs' => if String.eqb n name then Some v else attr name attrs'
  end.

(** ** Evaluation *)

(** Modelled from the spec: the result of [evaluate], the kept value with
    the attributes to inject, or a drop. *)
Inductive Verdict :=
| Keep (value : string) (extraAttributes : list injected)
| Drop.

(** Modelled from the spec: an element is admissible iff it has an element
    rule or is the scope of at least one attribute rule. *)
Definition isElementAdmissible (p : Policy) (e : string) : bool :=
  bool_decide (e ∈ elements p) ||
  match elementAttributes p !! e with
  | Some rules => negb (Nat.eqb (size rules) 0)
  | None => false
  end.

(** Modelled from the spec: the element-scoped rule when there is one,
    otherwise the global rule. *)
Definition resolve (p : Policy) (e a : string) : option (option regex) :=
  match elementAttributes p !! e ≫= (fun rules => rules !! a) with
  | Some r => Some r
  | None => globalAttributes p !! a
  end.

(** Modelled from the spec: the URL-bearing attributes the spec names. *)
Definition isURLAttr (a : string) : bool := existsb (String.eqb a) ["src"; "href"].

Section Evaluate.

Variable unicode : string -> rune -> bool.

(** Modelled from the spec: [test(value)] of a matcher; a pattern accepts
    the values it matches and leaves them as they are, a rule without a
    matcher accepts every value. *)
Definition accepts (mt : option regex) (value : string) : bool :=
  match mt with
  | None => true
  | Some re => MatchString unicode re value
  end.

Definition test (mt : option regex) (value : string) : option string :=
  if accepts mt value then Some value else None.

(** Modelled from the spec: [Policy.evaluate], steps 1 to 4. *)
Definition evaluate (p : Policy) (e a rawValue : string) : Verdict :=
  if negb (isElementAdmissible p e) then Drop
  else
    match resolve p e a with
    | None => Drop
    | Some mt =>
      match test mt rawValue with
      | None => Drop
      | Some v =>
        if isURLAttr a then
          match admitURL (urlPolicy p) a v e with
          | None => Drop
          | Some (v', extra) => Keep v' extra
          end
        else Keep v []
      end
    end.

End Evaluate.

(** The categories restricted to ASCII, a table to run the matchers on
    ASCII text. *)
Definition unicodeASCII (name : string) (x : rune) : bool :=
  if String.eqb name "L" then is_upper x || is_lower x
  else if String.eqb name "N" then in_perl Pd x
  else false.

(** ** The rule tuples of the spec

    The spec describes every registration as one call that records a
    complete rule: an attribute name, a matcher and a scope. *)

Inductive RuleScope :=
| Global
| ElementSet (names : list string).

Record AttributeRule := {
  attributeName : string;
  matcher : option regex;
  scope : RuleScope
}.

(** Follows the spec: a global rule is recorded under its attribute name, an
    element-scoped rule once per named element. *)
Definition register (r : AttributeRule) (p : Policy) : Policy :=
  match scope r with
  | Global => setGlobalAttributes (insert (attributeName r) (matcher r)) p
  | ElementSet names =>
    foldl (fun p e => setElementAttributes (setRule e (attributeName r) (matcher r)) p)
          p names
  end.

(** Follows the spec: the standard URL policy requires parseable URLs, allows
    relative ones, allows the schemes mailto, http and https, and forces
    nofollow on links. *)
Definition standardURLs (u : URLPolicy) : URLPolicy :=
  {| requireParseable := true; allowRelative := true;
     allowedSchemes := {[ "mailto"; "http"; "https" ]};
     forceNoFollow := true; noFollowElements := noFollowElements u |}.

(** Follows the spec: the composite "Images" as its fixed sequence of rule
    registrations. *)
Definition AllowImages_spec (p : Policy) : Policy :=
  p |> register {| attributeName := "align"; matcher := Some ImageAlign;
                   scope := ElementSet ["img"] |}
    |> register {| attributeName := "alt"; matcher := Some Paragraph;
                   scope := ElementSet ["img"] |}
    |> register {| attributeName := "height"; matcher := Some NumberOrPercent;
                   scope := ElementSet ["img"] |}
    |> register {| attributeName := "width"; matcher := Some NumberOrPercent;
                   scope := ElementSet ["img"] |}
    |> setURLPolicy standardURLs
    |> register {| attributeName := "src"; matcher := None;
                   scope := ElementSet ["img"] |}.

(** ** Builder calls as data *)

Inductive Target :=
| TGlobally
| TOnElements (els : list string).

Inductive Prim :=
| PAllowElements (names : list string)
| PAllowAttrs (names : list string) (mt : option regex) (t : Target)
| PRequireParseableURLs (b : bool)
| PAllowRelativeURLs (b : bool)
| PAllowURLSchemes (schemes : list string)
| PRequireNoFollowOnLinks (b : bool).

Inductive Call :=
| CPrim (c : Prim)
| CAllowStandardURLs
| CAllowStandardAttributes
| CAllowImages
| CAllowLists
| CAllowTables.

Definition withMatcher (mt : option regex) (b : attrPolicyBuilder) : attrPolicyBuilder :=
  match mt with
  | Some re => Matching re b
  | None => b
  end.

Definition prim (p : Policy) (c : Prim) : Policy :=
  match c with
  | PAllowElements names => AllowElements names p
  | PAllowAttrs names mt TGlobally => AllowAttrs p names |> withMatcher mt |> Globally
  | PAllowAttrs names mt (TOnElements els) =>
    AllowAttrs p names |> withMatcher mt |> OnElements els
  | PRequireParseableURLs b => RequireParseableURLs b p
  | PAllowRelativeURLs b => AllowRelativeURLs b p
  | PAllowURLSchemes schemes => AllowURLSchemes schemes p
  | PRequireNoFollowOnLinks b => RequireNoFollowOnLinks b p
  end.

Definition call (p : Policy) (c : Call) : Policy :=
  match c with
  | CPrim c' => prim p c'
  | CAllowStandardURLs => AllowStandardURLs p
  | CAllowStandardAttributes => AllowStandardAttributes p
  | CAllowImages => AllowImages p
  | CAllowLists => AllowLists p
  | CAllowTables => AllowTables p
  end.

(** A sequence of builder calls, applied in order. *)
Definition run (cs : list Call) (p : Policy) : Policy := foldl call p cs.

(** *** The writes of a call sequence

    Every builder call overwrites some cells of the policy with values that
    do not depend on the policy: it adds element names, binds rules to
    (element, attribute) keys and to global attribute names, and sets fields
    of the URL policy. A [Delta] collects such writes. *)

Record Delta := {
  dElements : gset string;
  dRules : gmap string (gmap string (option regex));
  dGlobal : gmap string (option regex);
  dParseable : option bool;
  dRelative : option bool;
  dSchemes : option (gset string);
  dNoFollow : option bool
}.

Definition orElse {A} (new old : option A) : option A :=
  match new with
  | Some x => Some x
  | None => old
  end.

Definition mergeRules (new old : gmap string (gmap string (option regex)))
  : gmap string (gmap string (option regex)) :=
  union_with (fun n o => Some (n ∪ o)) new old.

Definition patch (d : Delta) (p : Policy) : Policy :=
  {| elements := dElements d ∪ elements p;
     elementAttributes := mergeRules (dRules d) (elementAttributes p);
     globalAttributes := dGlobal d ∪ globalAttributes p;
     urlPolicy :=
       {| requireParseable := default (requireParseable (urlPolicy p)) (dParseable d);
          allowRelative := default (allowRelative (urlPolicy p)) (dRelative d);
          allowedSchemes := default (allowedSchemes (urlPolicy p)) (dSchemes d);
          forceNoFollow := default (forceNoFollow (urlPolicy p)) (dNoFollow d);
          noFollowElements := noFollowElements (urlPolicy p) |} |}.

(** The writes of [d1] followed by those of [d2]. *)
Definition after (d2 d1 : Delta) : Delta :=
  {| dElements := dElements d2 ∪ dElements d1;
     dRules := mergeRules (dRules d2) (dRules d1);
     dGlobal := dGlobal d2 ∪ dGlobal d1;
     dParseable := orElse (dParseable d2) (dParseable d1);
     dRelative := orElse (dRelative d2) (dRelative d1);
     dSchemes := orElse (dSchemes d2) (dSchemes d1);
     dNoFollow := orElse (dNoFollow d2) (dNoFollow d1) |}.

Definition noDelta : Delta :=
  {| dElements := ∅; dRules := ∅; dGlobal := ∅; dParseable := None;
     dRelative := None; dSchemes := None; dNoFollow := None |}.

Definition rulesFor (names : list string) (mt : option regex) : gmap string (option regex) :=
  gset_to_gmap mt (list_to_set names).

Definition delta1 (c : Prim) : Delta :=
  match c with
  | PAllowElements names =>
    {| dElements := list_to_set names; dRules := ∅; dGlobal := ∅; dParseable := None;
       dRelative := None; dSchemes := None; dNoFollow := None |}
  | PAllowAttrs names mt TGlobally =>
    {| dElements := ∅; dRules := ∅; dGlobal := rulesFor names mt; dParseable := None;
       dRelative := None; dSchemes := None; dNoFollow := None |}
  | PAllowAttrs names mt (TOnElements els) =>
    {| dElements := ∅;
       dRules := match names with
                 | [] => ∅
                 | _ :: _ => gset_to_gmap (rulesFor names mt) (list_to_set els)
                 end;
       dGlobal := ∅; dParseable := None;
       dRelative := None; dSchemes := None; dNoFollow := None |}
  | PRequireParseableURLs b =>
    {| dElements := ∅; dRules := ∅; dGlobal := ∅; dParseable := Some b;
       dRelative := None; dSchemes := None; dNoFollow := None |}
  | PAllowRelativeURLs b =>
    {| dElements := ∅; dRules := ∅; dGlobal := ∅; dParseable := None;
       dRelative := Some b; dSchemes := None; dNoFollow := None |}
  | PAllowURLSchemes schemes =>
    {| dElements := ∅; dRules := ∅; dGlobal := ∅; dParseable := None;
       dRelative := None; dSchemes := Some (list_to_set (map ToLower schemes));
       dNoFollow := None |}
  | PRequireNoFollowOnLinks b =>
    {| dElements := ∅; dRules := ∅; dGlobal := ∅; dParseable := None;
       dRelative := None; dSchemes := None; dNoFollow := Some b |}
  end.

Definition deltas (d : Delta) (cs : list Prim) : Delta :=
  foldl (fun d c => after (delta1 c) d) d cs.

Definition on (names : list string) (re : regex) (els : list string) : Prim :=
  PAllowAttrs names (Some re) (TOnElements els).

Definition globally (names : list string) (re : regex) : Prim :=
  PAllowAttrs names (Some re) TGlobally.

(** The primitive calls a call stands for; for a composite helper, the
    statements of its body in order. *)
Definition expandStandardURLs : list Prim :=
  [PRequireParseableURLs true; PAllowRelativeURLs true;
   PAllowURLSchemes ["mailto"; "http"; "https"]; PRequireNoFollowOnLinks true].

Definition expand (c : Call) : list Prim :=
  match c with
  | CPrim c' => [c']
  | CAllowStandardURLs => expandStandardURLs
  | CAllowStandardAttributes =>
    [globally ["dir"] Direction; globally ["lang"] Lang; globally ["id"] Id;
     globally ["title"] Paragraph]
  | CAllowImages =>
    [on ["align"] ImageAlign ["img"]; on ["alt"] Paragraph ["img"];
     on ["height"; "width"] NumberOrPercent ["img"]] ++ expandStandardURLs ++
    [PAllowAttrs ["src"] None (TOnElements ["img"])]
  | CAllowLists =>
    [on ["type"] ListType ["ol"; "ul"]; on ["type"] ListType ["li"];
     on ["value"] Integer ["li"]; PAllowElements ["dl"; "dt"; "dd"]]
  | CAllowTables =>
    [on ["height"; "width"] NumberOrPercent ["table"];
     on ["summary"] Paragraph ["table"];
     PAllowElements ["caption"];
     on ["align"] CellAlign ["col"; "colgroup"];
     on ["height"; "width"] NumberOrPercent ["col"; "colgroup"];
     on ["span"] Integer ["colgroup"; "col"];
     on ["valign"] CellVerticalAlign ["col"; "colgroup"];
     on ["align"] CellAlign ["thead"; "tr"];
     on ["valign"] CellVerticalAlign ["thead"; "tr"];
     on ["abbr"] Paragraph ["td"; "th"];
     on ["align"] CellAlign ["td"; "th"];
     on ["colspan"; "rowspan"] Integer ["td"; "th"];
     on ["headers"] NamesAndSpaces ["td"; "th"];
     on ["height"; "width"] NumberOrPercent ["td"; "th"];
     on ["scope"] CellScope ["td"; "th"];
     on ["valign"] CellVerticalAlign ["td"; "th"];
     on ["nowrap"] Nowrap ["td"; "th"];
     on ["align"] CellAlign ["tbody"; "tfoot"];
     on ["valign"] CellVerticalAlign ["tbody"; "tfoot"]]
  end.

Definition delta (c : Call) : Delta := deltas noDelta (expand c).

(** A policy for links: standard URLs, and [href] allowed on [a] with no
    value matcher. *)
Definition linkPolicy : Policy :=
  AllowAttrs (AllowStandardURLs emptyPolicy) ["href"] |> OnElements ["a"].

(** The writes of a call sequence. *)
Definition runDelta (cs : list Call) : Delta :=
  foldl (fun d c => after (delta c) d) noDelta cs.

(** ** Tests on a window of the text

    Without anchors a pattern built from letters and classes looks at a
    window of the text: [window ps l] holds when the first runes of [l] pass
    the tests [ps], one each, and [anywhere q l] when some suffix of [l]
    passes [q]. *)

Fixpoint window (ps : list (rune -> bool)) (l : list rune) : bool :=
  match ps with
  | [] => true
  | p :: ps' =>
    match l with
    | x :: l' => p x && window ps' l'
    | [] => false
    end
  end.

Fixpoint anywhere (q : list rune -> bool) (l : list rune) : bool :=
  q l ||
  match l with
  | [] => false
  | _ :: t => anywhere q t
  end.

(** A test that no rune outside ASCII passes. *)
Definition ascii_only (p : rune -> bool) : Prop :=
  forall x, 0x80 <= x -> p x = false.

(** The characters of the classes of [NamesAndSpaces] and of the [id]
    pattern. *)
Definition is_name_char (c : ascii) : bool :=
  is_alnum c || existsb (Ascii.eqb c) (list_ascii_of_string "-_$").

Definition is_id_char (c : ascii) : bool :=
  is_alnum c || existsb (Ascii.eqb c) (list_ascii_of_string ":-_.").

(** A class item that only ASCII runes can be in. *)
Definition item_ascii (i : item) : bool :=
  match i with
  | IChr c | IEsc c => N_of_ascii c <? 0x80
  | IRange _ hi => N_of_ascii hi <? 0x80
  | IPerl _ => true
  | IUni _ => false
  end.

(** ** Texts that contain a word

    [prefix_fold w s]: the text [s] starts with the word [w], letter case
    apart; [contains_fold w s]: [w] occurs in [s], letter case apart. *)

Fixpoint prefix_fold (w s : string) : bool :=
  match w with
  | EmptyString => true
  | String c w' =>
    match s with
    | EmptyString => false
    | String d s' => Ascii.eqb (lower_ascii d) (lower_ascii c) && prefix_fold w' s'
    end
  end.

Fixpoint contains_fold (w s : string) : bool :=
  prefix_fold w s ||
  match s with
  | EmptyString => false
  | String _ s' => contains_fold w s'
  end.

(** Two ASCII letters next to each other. *)
Fixpoint adjacent_letters (s : string) : bool :=
  match s with
  | String c1 ((String c2 _) as s') => is_alpha c1 && is_alpha c2 || adjacent_letters s'
  | _ => false
  end.

(** The tests a word stands for: one rune per letter, up to case folding
    when [fold] is set. *)
Definition word (fold : bool) (w : string) : list (rune -> bool) :=
  map (eq_char fold) (list_ascii_of_string w).

(** A text of ASCII bytes only. *)
Definition is_ascii_text (s : string) : bool :=
  forallb (fun b => b <? 0x80) (bytes s).

(** A letter whose case folding stays in ASCII: every letter but k and s. *)
Definition plain_letter (c : ascii) : bool :=
  (N_of_ascii c <? 0x80) &&
  negb (existsb (Ascii.eqb c) (list_ascii_of_string "kKsS")).

(** The keyword patterns of [helpers.go] with their keywords. *)
Definition vocabularies : list (regex * list string) :=
  [(CellAlign, ["center"; "justify"; "left"; "right"; "char"]);
   (CellVerticalAlign, ["baseline"; "bottom"; "middle"; "top"]);
   (Direction, ["rtl"; "ltr"]);
   (ImageAlign, ["left"; "right"; "top"; "texttop"; "middle"; "absmiddle"; "baseline";
                 "bottom"; "absbottom"]);
   (ListType, ["circle"; "disc"; "square"; "a"; "A"; "i"; "I"; "1"])].

Definition is_list_type_char (c : ascii) : bool :=
  existsb (Ascii.eqb c) (list_ascii_of_string "aAiI1").

(** Matching a letter up to case folding, on the ASCII runes only. *)
Definition restrict (c : ascii) (x : rune) : bool := eq_char true c x && (x <? 0x80).

(** The lower case of an ASCII rune. *)
Definition lowerN (x : rune) : rune := if is_upper x then x + 32 else x.

(** The runes a, A, i, I and 1, and the test of [ListType] at one position:
    one of its keywords starts there. *)
Definition list_type_rune (x : rune) : bool :=
  (lowerN x =? 97) || (lowerN x =? 105) || (x =? 49).

Definition list_type_here (l : list rune) : bool :=
  existsb (fun w => window (word true w) l)
          ["circle"; "disc"; "square"; "a"; "A"; "i"; "I"; "1"].

(** ** Decimal numbers

    [is_number s]: an optional sign, then digits, an optional point and at
    least one digit, nothing else: the forms [12], [1.5], [.5], [-3] and
    [+0.25], not [1.] nor the empty text. *)

Fixpoint all_digits (s : string) : bool :=
  match s with
  | EmptyString => true
  | String c s' => is_digit c && all_digits s'
  end.

Definition nonempty (s : string) : bool :=
  match s with
  | EmptyString => false
  | String _ _ => true
  end.

(** After the sign: [seen] tells whether a digit has been read. *)
Fixpoint number_body (s : string) (seen : bool) : bool :=
  match s with
  | EmptyString => seen
  | String c s' =>
    if is_digit c then number_body s' true
    else if Ascii.eqb c "." then nonempty s' && all_digits s'
    else false
  end.

Definition is_number (s : string) : bool :=
  match s with
  | EmptyString => false
  | String c s' =>
    if existsb (Ascii.eqb c) (list_ascii_of_string "-+") then number_body s' false
    else number_body s false
  end.

(** The same on runes. *)
Definition tailR (l : list rune) : bool :=
  match l with
  | [] => false
  | _ :: _ => forallb (in_perl Pd) l
  end.

Fixpoint bodyR (l : list rune) (seen : bool) : bool :=
  match l with
  | [] => seen
  | x :: t =>
    if in_perl Pd x then bodyR t true
    else if x =? 46 then tailR t
    else false
  end.

Definition numberR (l : list rune) : bool :=
  match l with
  | [] => false
  | x :: t => if (x =? 45) || (x =? 43) then bodyR t false else bodyR l false
  end.

(** ** What a set of writes admits and binds *)

(** The elements a set of writes makes admissible. *)
Definition admits (d : Delta) (e : string) : bool :=
  bool_decide (e ∈ dElements d) ||
  match dRules d !! e with
  | Some rules => negb (Nat.eqb (size rules) 0)
  | None => false
  end.

(** The composite helpers, as opposed to the primitive calls. *)
Definition composite (c : Call) : bool :=
  match c with
  | CPrim _ => false
  | _ => true
  end.

(** The elements each composite helper names, in the order of its body. *)
Definition tableElements : list string :=
  ["table"; "caption"; "col"; "colgroup"; "thead"; "tr"; "td"; "th"; "tbody"; "tfoot"].

Definition listElements : list string := ["ol"; "ul"; "li"; "dl"; "dt"; "dd"].

(** The rule a set of writes binds to attribute [a] of element [e]. *)
Definition ruleOf (d : Delta) (e a : string) : option (option regex) :=
  dRules d !! e ≫= (fun rules => rules !! a).

(** A rule table: (element, attribute, matcher) triples, read first match
    first. *)
Definition matrix := list (string * string * option regex).

Fixpoint lookupRule (e a : string) (mx : matrix) : option (option regex) :=
  match mx with
  | [] => None
  | (e', a', r) :: mx' =>
    if String.eqb e' e && String.eqb a' a then Some r else lookupRule e a mx'
  end.

Definition rulesOfMatrix (mx : matrix) : gmap string (gmap string (option regex)) :=
  foldr (fun ear M => setRule (fst (fst ear)) (snd (fst ear)) (snd ear) M) ∅ mx.

(** Every element of [els] with every attribute of [attrs]. *)
Definition cells (els : list string) (attrs : list (string * regex)) : matrix :=
  flat_map (fun e => map (fun ar => (e, fst ar, Some (snd ar))) attrs) els.

(** The rules of [AllowTables], element by element. *)
Definition tableMatrix : matrix :=
  cells ["table"]
        [("height", NumberOrPercent); ("width", NumberOrPercent); ("summary", Paragraph)] ++
  cells ["col"; "colgroup"]
        [("align", CellAlign); ("height", NumberOrPercent); ("width", NumberOrPercent);
         ("span", Integer); ("valign", CellVerticalAlign)] ++
  cells ["thead"; "tr"; "tbody"; "tfoot"]
        [("align", CellAlign); ("valign", CellVerticalAlign)] ++
  cells ["td"; "th"]
        [("abbr", Paragraph); ("align", CellAlign); ("colspan", Integer);
         ("rowspan", Integer); ("headers", NamesAndSpaces); ("height", NumberOrPercent);
         ("width", NumberOrPercent); ("scope", CellScope); ("valign", CellVerticalAlign);
         ("nowrap", Nowrap)].

(** The rules of [AllowLists]. *)
Definition listMatrix : matrix :=
  cells ["ol"; "ul"] [("type", ListType)] ++
  cells ["li"] [("type", ListType); ("value", Integer)].




(** ** The year of [ISO8601]

    [year_end l]: what follows the year when [l] starts with one: four
    digits, with or without a sign before them. *)

Definition is_sign (x : rune) : bool := (x =? 43) || (x =? 45).

Fixpoint digits_then (n : nat) (l : list rune) : option (list rune) :=
  match n with
  | O => Some l
  | S n' =>
    match l with
    | x :: t => if in_perl Pd x then digits_then n' t else None
    | [] => None
    end
  end.

Definition year_end (l : list rune) : option (list rune) :=
  match l with
  | x :: t => if is_sign x then digits_then 4 t else digits_then 4 l
  | [] => None
  end.

Definition has_year (l : list rune) : bool :=
  window (is_sign :: repeat (in_perl Pd) 4) l || window (repeat (in_perl Pd) 4) l.

(** * Properties *)

(** ** The trees are the patterns of [helpers.go] *)

Lemma pattern_texts :
  show CellAlign = "(?i)center|justify|left|right|char" /\
  show CellVerticalAlign = "(?i)baseline|bottom|middle|top" /\
  show Direction = "(?i)rtl|ltr" /\
  show ImageAlign =
    "(?i)left|right|top|texttop|middle|absmiddle|baseline|bottom|absbottom" /\
  show Integer = "[0-9]+" /\
  show ListType = "(?i)circle|disc|square|a|A|i|I|1" /\
  show NamesAndSpaces = "[a-zA-Z0-9\-_\$]+" /\
  show Number = "^[-+]?[0-9]*\.?[0-9]+$" /\
  show NumberOrPercent = "[0-9]+%?" /\
  show Paragraph = "[\p{L}\p{N}\s\-_',:\[\]!\./\\\(\)&]*" /\
  show Lang = "[a-zA-Z]{2,20}" /\
  show Id = "[a-zA-Z0-9\:\-_\.]+" /\
  show CellScope = "(?i)(?:row|col)(?:group)?" /\
  show Nowrap = "(?i)|nowrap".
Proof. repeat split; reflexivity. Qed.

Lemma ISO8601_text :
  show ISO8601 =
    "^([\+-]?\d{4})((-?)((0[1-9]|1[0-2])" +:+
    "([12]\d|0[1-9]|3[01])?|W([0-4]\d|5[0-2])" +:+
    "(-?[1-7])?|(00[1-9]|0[1-9]\d|[12]\d{2}|3([0-5]\d|6[1-6])))" +:+
    "([T\s]((([01]\d|2[0-3])((:?)[0-5]\d)?|24\:?00)([\.,]\d+[^:])?)?" +:+
    "([0-5]\d([\.,]\d+)?)?([zZ]|([\+-])" +:+
    "([01]\d|2[0-3]):?([0-5]\d)?)?)?)?$".
Proof. reflexivity. Qed.

Lemma patterns_wf :
  forallb (wf LTop)
    [CellAlign; CellVerticalAlign; Direction; ImageAlign; Integer; ISO8601;
     ListType; NamesAndSpaces; Number; NumberOrPercent; Paragraph; Lang; Id;
     CellScope; Nowrap] = true.
Proof. reflexivity. Qed.

(** ** Decoding *)

Lemma high_not_digit (x : N) : 0x80 <= x -> in_perl Pd x = false.
Proof.
  intros H. unfold in_perl. destruct (N.leb_spec x 57); [lia|]. apply andb_false_r.
Qed.

Lemma cont_high (b : N) : cont b = true -> 0x80 <= b.
Proof. unfold cont. intros [H _]%andb_true_iff. apply N.leb_le in H. exact H. Qed.

Lemma second_high (b0 b1 : N) :
  second b0 b1 = true ->
  0x80 <= b1 /\ (b0 = 0xE0 -> 0xA0 <= b1) /\ (b0 = 0xF0 -> 0x90 <= b1).
Proof.
  unfold second, acceptLo. intros [H _]%andb_true_iff. apply N.leb_le in H.
  destruct (N.eqb_spec b0 0xE0), (N.eqb_spec b0 0xF0); repeat split; intros; lia.
Qed.

(** The bytes of one encoded rune hold an ASCII digit exactly when the rune
    is one: a multi-byte encoding has no ASCII byte and no ASCII rune. *)
Lemma digit_byte_rune (s : list N) (r : rune) (w : nat) :
  s <> [] -> DecodeRune s = (r, w) ->
  (1 <= w)%nat /\ existsb (in_perl Pd) (take w s) = in_perl Pd r.
Proof.
  destruct s as [|b0 t]; [congruence|]. intros _. cbn [DecodeRune].
  destruct (N.ltb_spec b0 0x80) as [Hlt|Hge].
  { intros [= <- <-]. split; [lia|]. cbn [take existsb]. apply orb_false_r. }
  assert (Hb0 : in_perl Pd b0 = false) by (apply high_not_digit; exact Hge).
  assert (Herr : (RuneError, 1%nat) = (r, w) ->
                 (1 <= w)%nat /\ existsb (in_perl Pd) (take w (b0 :: t)) = in_perl Pd r).
  { intros [= <- <-]. split; [lia|]. cbn [take existsb]. rewrite Hb0. reflexivity. }
  destruct ((b0 <? 0xC2) || (0xF4 <? b0)) eqn:Hr; [exact Herr|].
  apply orb_false_iff in Hr as [H1 H2]. apply N.ltb_ge in H1, H2.
  destruct (N.ltb_spec b0 0xE0) as [H3|H3]; [|destruct (N.ltb_spec b0 0xF0) as [H4|H4]].
  - destruct t as [|b1 t]; [exact Herr|].
    destruct (second b0 b1) eqn:Hs; [|exact Herr].
    apply second_high in Hs as (Hs & _ & _).
    intros [= <- <-]. split; [lia|]. cbn [take existsb].
    rewrite !high_not_digit by (unfold low6; lia). reflexivity.
  - destruct t as [|b1 [|b2 t]]; [exact Herr | exact Herr |].
    destruct (second b0 b1 && cont b2) eqn:Hs; [|exact Herr].
    apply andb_true_iff in Hs as [Hs Hc2]. apply cont_high in Hc2.
    apply second_high in Hs as (Hs & HE & _).
    intros [= <- <-]. split; [lia|]. cbn [take existsb].
    rewrite !high_not_digit by (unfold low6; lia). reflexivity.
  - destruct t as [|b1 [|b2 [|b3 t]]]; [exact Herr | exact Herr | exact Herr |].
    destruct (second b0 b1 && cont b2 && cont b3) eqn:Hs; [|exact Herr].
    apply andb_true_iff in Hs as [Hs Hc3]. apply andb_true_iff in Hs as [Hs Hc2].
    apply cont_high in Hc2, Hc3. apply second_high in Hs as (Hs & _ & HF).
    intros [= <- <-]. split; [lia|]. cbn [take existsb].
    rewrite !high_not_digit by (unfold low6; lia). reflexivity.
Qed.

Lemma decode_loop_digit (n : nat) (s : list N) :
  (length s <= n)%nat ->
  existsb (in_perl Pd) (decode_loop n s) = existsb (in_perl Pd) s.
Proof.
  revert s. induction n as [|n IH]; intros s Hn.
  - destruct s; [reflexivity | simpl in Hn; lia].
  - destruct s as [|b0 t]; [reflexivity|].
    cbn [decode_loop]. destruct (DecodeRune (b0 :: t)) as [r w] eqn:E.
    cbn [existsb].
    apply digit_byte_rune in E as [Hw Hr]; [|congruence].
    assert (Hd : (length (drop w (b0 :: t)) <= n)%nat).
    { rewrite length_drop. simpl in Hn |- *. lia. }
    transitivity (existsb (in_perl Pd) (take w (b0 :: t) ++ drop w (b0 :: t))).
    + rewrite existsb_app, <- Hr, (IH _ Hd). reflexivity.
    + rewrite take_drop. reflexivity.
Qed.

(** A string has a digit rune exactly when it has a digit byte. *)
Lemma decode_digit (s : string) :
  existsb (in_perl Pd) (decode s) = existsb (in_perl Pd) (bytes s).
Proof. unfold decode. apply decode_loop_digit. lia. Qed.

(** ** The matcher decides what the pattern denotes *)

Lemma nil_b_app (pre : list rune) (x : rune) (t : list rune) :
  nil_b (pre ++ x :: t) = false.
Proof. destruct pre; reflexivity. Qed.

Lemma decides_ext (f : kmatcher) (P Q : lang) :
  (forall pre mid post, P pre mid post <-> Q pre mid post) ->
  decides f P -> decides f Q.
Proof.
  intros E Hf k pre s. rewrite (Hf k pre s).
  split; intros (s1 & s2 & Hs & HP & Hk); exists s1, s2; repeat split;
    try assumption; apply E; exact HP.
Qed.

Lemma decides_eps : decides (fun k => k) (fun _ mid _ => mid = []).
Proof.
  intros k pre s. split.
  - intros Hk. exists [], s. rewrite app_nil_r. auto.
  - intros (s1 & s2 & -> & -> & Hk). rewrite app_nil_r in Hk. exact Hk.
Qed.

Lemma decides_one (p : rune -> bool) :
  decides (one p) (fun _ mid _ => exists x, mid = [x] /\ p x = true).
Proof.
  intros k pre s. unfold one. split.
  - destruct s as [|x t]; [discriminate|]. intros [Hp Hk]%andb_true_iff.
    exists [x], t. rewrite nil_b_app. eauto.
  - intros (s1 & s2 & -> & (x & -> & Hp) & Hk). rewrite nil_b_app in Hk.
    cbn. rewrite Hp, Hk. reflexivity.
Qed.

Lemma decides_seq (f g : kmatcher) (P Q : lang) :
  decides f P -> decides g Q -> decides (fun k => f (g k)) (Seq P Q).
Proof.
  intros Hf Hg k pre s. rewrite (Hf (g k) pre s). split.
  - intros (s1 & s' & -> & HP & Hk). apply Hg in Hk as (s2 & s3 & -> & HQ & Hk).
    exists (s1 ++ s2), s3. rewrite <- app_assoc in Hk. rewrite <- app_assoc.
    repeat split; [|exact Hk]. exists s1, s2. auto.
  - intros (s12 & s3 & -> & (s1 & s2 & -> & HP & HQ) & Hk).
    exists s1, (s2 ++ s3). rewrite <- app_assoc. repeat split; [exact HP|].
    apply Hg. exists s2, s3. rewrite app_assoc in Hk. auto.
Qed.

Lemma decides_alt (f g : kmatcher) (P Q : lang) :
  decides f P -> decides g Q ->
  decides (fun k at0 s => f k at0 s || g k at0 s)
          (fun pre mid post => P pre mid post \/ Q pre mid post).
Proof.
  intros Hf Hg k pre s. rewrite orb_true_iff, (Hf k pre s), (Hg k pre s). split.
  - intros [(s1 & s2 & ? & ? & ?)|(s1 & s2 & ? & ? & ?)]; exists s1, s2; auto.
  - intros (s1 & s2 & ? & [?|?] & ?); [left|right]; exists s1, s2; auto.
Qed.

Lemma Seq_ext (P Q Q' : lang) :
  (forall pre mid post, Q pre mid post <-> Q' pre mid post) ->
  forall pre mid post, Seq P Q pre mid post <-> Seq P Q' pre mid post.
Proof.
  intros E pre mid post.
  split; intros (s1 & s2 & ? & ? & HQ); exists s1, s2; repeat split;
    try assumption; apply E; exact HQ.
Qed.

Lemma Seq_assoc (P Q R : lang) (pre mid post : list rune) :
  Seq (Seq P Q) R pre mid post <-> Seq P (Seq Q R) pre mid post.
Proof.
  split.
  - intros (s12 & s3 & -> & (s1 & s2 & -> & HP & HQ) & HR).
    exists s1, (s2 ++ s3). rewrite <- ?app_assoc in *. repeat split; [exact HP|].
    exists s2, s3. rewrite <- ?app_assoc. auto.
  - intros (s1 & s23 & -> & HP & (s2 & s3 & -> & HQ & HR)).
    exists (s1 ++ s2), s3. rewrite <- ?app_assoc in *. repeat split; [|exact HR].
    exists s1, s2. rewrite <- ?app_assoc. auto.
Qed.

Lemma Iter_add (P : lang) (a b : nat) (pre mid post : list rune) :
  Seq (Iter P a) (Iter P b) pre mid post <-> Iter P (a + b) pre mid post.
Proof.
  revert pre mid post. induction a as [|a IH]; intros pre mid post.
  - cbn [Iter Nat.add]. split.
    + intros (s1 & s2 & -> & -> & H). rewrite app_nil_r in H. exact H.
    + intros H. exists [], mid. rewrite app_nil_r. auto.
  - cbn [Iter Nat.add]. rewrite Seq_assoc. apply Seq_ext. exact IH.
Qed.

Lemma decides_times (f : kmatcher) (P : lang) (n : nat) :
  decides f P -> decides (times f n) (Iter P n).
Proof.
  intros Hf. induction n as [|n IH].
  - exact decides_eps.
  - exact (decides_seq _ _ _ _ Hf IH).
Qed.

Lemma decides_upto (f : kmatcher) (P : lang) (n : nat) :
  decides f P ->
  decides (upto f n) (fun pre mid post => exists c, (c <= n)%nat /\ Iter P c pre mid post).
Proof.
  intros Hf. induction n as [|n IH]; intros k pre s; cbn [upto]; rewrite orb_true_iff.
  - split.
    + intros [Hk|?]; [|discriminate]. exists [], s. rewrite app_nil_r.
      repeat split; [|exact Hk]. exists 0%nat. split; [lia | reflexivity].
    + intros (s1 & s2 & -> & (c & Hc & Hi) & Hk).
      assert (c = 0%nat) as -> by lia. cbn in Hi. subst s1.
      rewrite app_nil_r in Hk. left. exact Hk.
  - rewrite (decides_seq _ _ _ _ Hf IH k pre s). split.
    + intros [Hk|(s1 & s2 & -> & (a & b & -> & HP & (c & Hc & Hi)) & Hk)].
      * exists [], s. rewrite app_nil_r. repeat split; [|exact Hk].
        exists 0%nat. split; [lia | reflexivity].
      * exists (a ++ b), s2. repeat split; [|exact Hk].
        exists (S c). split; [lia|]. exists a, b. auto.
    + intros (s1 & s2 & -> & ([|c] & Hc & Hi) & Hk).
      * cbn in Hi. subst s1. rewrite app_nil_r in Hk. left. exact Hk.
      * right. destruct Hi as (a & b & -> & HP & Hi). exists (a ++ b), s2.
        repeat split; [|exact Hk]. exists a, b. repeat split; [exact HP|].
        exists c. split; [lia | exact Hi].
Qed.

Lemma star_sound (f : kmatcher) (P : lang) (n : nat) (k : cont_t) (pre s : list rune) :
  decides f P -> star f k n (nil_b pre) s = true ->
  exists s1 s2, s = s1 ++ s2 /\ (exists c, Iter P c pre s1 s2) /\
                k (nil_b (pre ++ s1)) s2 = true.
Proof.
  intros Hf. revert pre s. induction n as [|n IH]; intros pre s; cbn [star];
    rewrite orb_true_iff; intros [Hk|H].
  - exists [], s. rewrite app_nil_r. repeat split; [|exact Hk]. exists 0%nat. reflexivity.
  - discriminate.
  - exists [], s. rewrite app_nil_r. repeat split; [|exact Hk]. exists 0%nat. reflexivity.
  - apply Hf in H as (a & s' & -> & HP & [_ H]%andb_true_iff).
    apply IH in H as (b & s2 & -> & (c & Hi) & Hk).
    exists (a ++ b), s2. rewrite <- !app_assoc in *. repeat split; [|exact Hk].
    exists (S c), a, b. auto.
Qed.

Lemma star_complete (f : kmatcher) (P : lang) (c n : nat) (k : cont_t)
  (pre s1 s2 : list rune) :
  decides f P -> Iter P c pre s1 s2 -> k (nil_b (pre ++ s1)) s2 = true ->
  (length (s1 ++ s2) <= n)%nat -> star f k n (nil_b pre) (s1 ++ s2) = true.
Proof.
  intros Hf. revert n pre s1. induction c as [|c IH]; intros n pre s1 Hi Hk Hn.
  - cbn in Hi. subst s1. rewrite app_nil_r in Hk. cbn [app].
    destruct n; cbn [star]; rewrite Hk; reflexivity.
  - destruct Hi as (a & b & -> & HP & Hi). destruct a as [|x a].
    + cbn [app] in *. rewrite app_nil_r in Hi. apply IH; assumption.
    + destruct n as [|n]; [cbn in Hn; lia|]. cbn [star]. apply orb_true_iff. right.
      apply Hf. exists (x :: a), (b ++ s2). rewrite <- !app_assoc in *.
      repeat split; [exact HP|]. apply andb_true_iff. split.
      * apply Nat.ltb_lt. cbn [app length] in *. rewrite !length_app in *. cbn. lia.
      * apply IH; [exact Hi | rewrite <- app_assoc; exact Hk |].
        cbn [app length] in Hn. rewrite !length_app in *. lia.
Qed.

Lemma decides_star (f : kmatcher) (P : lang) :
  decides f P ->
  decides (fun k at0 s => star f k (length s) at0 s)
          (fun pre mid post => exists c, Iter P c pre mid post).
Proof.
  intros Hf k pre s. split.
  - apply star_sound. exact Hf.
  - intros (s1 & s2 & -> & (c & Hi) & Hk). apply (star_complete f P c); auto.
Qed.

Section Denotation.

Variable unicode : string -> rune -> bool.

Theorem m_decides (r : regex) (fold : bool) :
  decides (m unicode fold r) (Matches unicode fold r).
Proof.
  revert fold.
  induction r as [|c|c|p|neg items| | |r1 IH1 r2 IH2|r1 IH1 r2 IH2|r1 IH|r1 IH|r1 IH
                  |r1 IH lo hi|r1 IH|r1 IH|r1 IH]; intros fold.
  - exact decides_eps.
  - exact (decides_one _).
  - exact (decides_one _).
  - exact (decides_one _).
  - exact (decides_one _).
  - intros k pre s. cbn [m Matches]. rewrite andb_true_iff. split.
    + intros [H0 Hk]. destruct pre; [|discriminate]. exists [], s. auto.
    + intros (s1 & s2 & -> & [-> ->] & Hk). auto.
  - intros k pre s. cbn [m Matches]. split.
    + destruct s; [|discriminate]. intros Hk. exists [], []. rewrite (app_nil_r pre). auto.
    + intros (s1 & s2 & -> & [-> ->] & Hk). rewrite app_nil_r in Hk. exact Hk.
  - exact (decides_seq _ _ _ _ (IH1 fold) (IH2 fold)).
  - exact (decides_alt _ _ _ _ (IH1 fold) (IH2 fold)).
  - exact (decides_star _ _ (IH fold)).
  - apply (decides_ext _ (Seq (Matches unicode fold r1)
                              (fun pre mid post =>
                                 exists c, Iter (Matches unicode fold r1) c pre mid post))).
    + intros pre mid post. cbn [Matches Iter]. split.
      * intros (s1 & s2 & -> & HP & (c & Hi)). exists c, s1, s2. auto.
      * intros (c & s1 & s2 & -> & HP & Hi). exists s1, s2. eauto.
    + exact (decides_seq _ _ _ _ (IH fold) (decides_star _ _ (IH fold))).
  - exact (decides_alt _ _ _ _ (IH fold) decides_eps).
  - destruct hi as [h|].
    + apply (decides_ext _ (Seq (Iter (Matches unicode fold r1) lo)
                                (fun pre mid post =>
                                   exists c, (c <= h - lo)%nat /\
                                             Iter (Matches unicode fold r1) c pre mid post))).
      * intros pre mid post. cbn [Matches]. split.
        -- intros (s1 & s2 & -> & Hlo & (c & Hc & Hi)). exists (lo + c)%nat.
           repeat split; [lia | lia |]. apply Iter_add. exists s1, s2. auto.
        -- intros (n & Hlo & Hhi & Hi). replace n with (lo + (n - lo))%nat in Hi by lia.
           apply Iter_add in Hi as (s1 & s2 & -> & H1 & H2). exists s1, s2.
           repeat split; [exact H1|]. exists (n - lo)%nat. split; [lia | exact H2].
      * exact (decides_seq _ _ _ _ (decides_times _ _ lo (IH fold))
                 (decides_upto _ _ (h - lo) (IH fold))).
    + apply (decides_ext _ (Seq (Iter (Matches unicode fold r1) lo)
                                (fun pre mid post =>
                                   exists c, Iter (Matches unicode fold r1) c pre mid post))).
      * intros pre mid post. cbn [Matches]. split.
        -- intros (s1 & s2 & -> & Hlo & (c & Hi)). exists (lo + c)%nat.
           repeat split; [lia|]. apply Iter_add. exists s1, s2. auto.
        -- intros (n & Hlo & _ & Hi). replace n with (lo + (n - lo))%nat in Hi by lia.
           apply Iter_add in Hi as (s1 & s2 & -> & H1 & H2). exists s1, s2. eauto.
      * exact (decides_seq _ _ _ _ (decides_times _ _ lo (IH fold))
                 (decides_star _ _ (IH fold))).
  - exact (IH fold).
  - exact (IH fold).
  - exact (IH true).
Qed.

Lemma search_spec (r : regex) (s pre : list rune) :
  search unicode r (nil_b pre) s = true <->
  exists s0 s1 s2, s = s0 ++ s1 ++ s2 /\ Matches unicode false r (pre ++ s0) s1 s2.
Proof.
  revert pre. induction s as [|x t IH]; intros pre; cbn [search];
    rewrite orb_true_iff, (m_decides r false accept pre).
  - split.
    + intros [(s1 & s2 & Hs & HM & _)|?]; [|discriminate].
      exists [], s1, s2. rewrite app_nil_r. auto.
    + intros (s0 & s1 & s2 & Hs & HM). left. symmetry in Hs.
      apply app_eq_nil in Hs as [-> Hs]. rewrite app_nil_r in HM.
      exists s1, s2. auto.
  - rewrite <- (nil_b_app pre x []) at 1. rewrite (IH (pre ++ [x])). split.
    + intros [(s1 & s2 & Hs & HM & _)|(s0 & s1 & s2 & -> & HM)].
      * exists [], s1, s2. rewrite app_nil_r. auto.
      * exists (x :: s0), s1, s2. rewrite <- app_assoc in HM. auto.
    + intros ([|y s0] & s1 & s2 & Hs & HM).
      * left. rewrite app_nil_r in HM. exists s1, s2. auto.
      * right. cbn [app] in Hs. injection Hs as <- ->. exists s0, s1, s2.
        rewrite <- app_assoc. auto.
Qed.

(** [MatchString] holds exactly when the decoded text has a match. *)
Theorem MatchString_spec (re : regex) (s : string) :
  MatchString unicode re s = true <-> HasMatch unicode re (decode s).
Proof. apply (search_spec re (decode s) []). Qed.

End Denotation.

(** ** The matchers *)

Section MatcherFacts.

Variable unicode : string -> rune -> bool.

Lemma star_accept (f : kmatcher) (n : nat) (at0 : bool) (s : list rune) :
  star f accept n at0 s = true.
Proof. destruct n; reflexivity. Qed.

Lemma search_here (r : regex) (at0 : bool) (s : list rune) :
  m unicode false r accept at0 s = true -> search unicode r at0 s = true.
Proof. intros H. destruct s; cbn [search]; rewrite H; reflexivity. Qed.

(** A starred pattern matches the empty text, which every text contains. *)
Lemma Paragraph_total (s : string) : MatchString unicode Paragraph s = true.
Proof. apply search_here. apply star_accept. Qed.

(** So does a pattern with an empty alternative. *)
Lemma Nowrap_total (s : string) : MatchString unicode Nowrap s = true.
Proof. apply search_here. reflexivity. Qed.

Lemma Integer_here (at0 : bool) (s : list rune) :
  m unicode false Integer accept at0 s =
  match s with
  | x :: _ => in_perl Pd x
  | [] => false
  end.
Proof.
  destruct s as [|x t]; [reflexivity|].
  cbn [m Integer digit one]. rewrite star_accept, andb_true_r.
  unfold in_class, variants. cbn [existsb in_item in_perl xorb].
  rewrite !orb_false_r. reflexivity.
Qed.

Lemma search_Integer (at0 : bool) (s : list rune) :
  search unicode Integer at0 s = existsb (in_perl Pd) s.
Proof.
  revert at0. induction s as [|x t IH]; intros at0.
  - reflexivity.
  - cbn [search existsb]. rewrite Integer_here, IH. reflexivity.
Qed.

Lemma MatchString_Integer (s : string) :
  MatchString unicode Integer s = existsb (in_perl Pd) (bytes s).
Proof. unfold MatchString. rewrite search_Integer. apply decode_digit. Qed.

End MatcherFacts.

Lemma has_digit_iff (s : string) :
  existsb (in_perl Pd) (bytes s) = true <->
  exists c, In c (list_ascii_of_string s) /\ is_digit c = true.
Proof.
  unfold bytes. rewrite existsb_exists. split.
  - intros (x & Hin & Hx). apply in_map_iff in Hin as (c & <- & Hc). eauto.
  - intros (c & Hc & Hd). exists (N_of_ascii c). split; [|exact Hd].
    apply in_map. exact Hc.
Qed.

(** ** Writes *)

Lemma mergeRules_lookup (A B : gmap string (gmap string (option regex))) (e : string) :
  mergeRules A B !! e =
  match A !! e, B !! e with
  | Some n, Some o => Some (n ∪ o)
  | Some n, None => Some n
  | None, o => o
  end.
Proof.
  unfold mergeRules. rewrite lookup_union_with.
  destruct (A !! e), (B !! e); reflexivity.
Qed.

Lemma mergeRules_assoc (A B C : gmap string (gmap string (option regex))) :
  mergeRules A (mergeRules B C) = mergeRules (mergeRules A B) C.
Proof.
  apply map_eq. intros e. rewrite !mergeRules_lookup.
  destruct (A !! e), (B !! e), (C !! e); try reflexivity.
  rewrite (assoc_L (∪)). reflexivity.
Qed.

Lemma mergeRules_idemp (A : gmap string (gmap string (option regex))) :
  mergeRules A A = A.
Proof.
  apply map_eq. intros e. rewrite mergeRules_lookup.
  destruct (A !! e); [|reflexivity]. rewrite (idemp_L (∪)). reflexivity.
Qed.

Lemma mergeRules_empty (B : gmap string (gmap string (option regex))) :
  mergeRules ∅ B = B.
Proof.
  apply map_eq. intros e. rewrite mergeRules_lookup, lookup_empty. reflexivity.
Qed.

Lemma setRule_merge (e a : string) (r : option regex)
  (ea : gmap string (gmap string (option regex))) :
  setRule e a r ea = mergeRules {[e := {[a := r]}]} ea.
Proof.
  apply map_eq. intros e'. unfold setRule. rewrite mergeRules_lookup.
  destruct (decide (e = e')) as [<-|Hne].
  - rewrite lookup_insert_eq, lookup_singleton_eq.
    destruct (ea !! e); cbn [default].
    + rewrite insert_union_singleton_l. reflexivity.
    + rewrite insert_empty. reflexivity.
  - rewrite lookup_insert_ne, lookup_singleton_ne by exact Hne. reflexivity.
Qed.

Lemma lookup_names {A} (x : A) (names : list string) (k : string) :
  gset_to_gmap x (list_to_set names) !! k =
  if bool_decide (k ∈ names) then Some x else None.
Proof.
  rewrite lookup_gset_to_gmap.
  destruct (decide (k ∈ names)) as [Hin|Hin].
  - rewrite bool_decide_eq_true_2 by exact Hin.
    rewrite option_guard_True by (apply elem_of_list_to_set; exact Hin). reflexivity.
  - rewrite bool_decide_eq_false_2 by exact Hin.
    rewrite option_guard_False by (rewrite elem_of_list_to_set; exact Hin). reflexivity.
Qed.

Lemma elem_of_cons_ne (a k : string) (names : list string) :
  a <> k -> bool_decide (k ∈ a :: names) = bool_decide (k ∈ names).
Proof.
  intros Hne. apply bool_decide_ext. rewrite elem_of_cons.
  split; [intros [->|Hk]; [congruence | exact Hk] | right; assumption].
Qed.

Lemma rulesFor_lookup (names : list string) (mt : option regex) (a : string) :
  rulesFor names mt !! a = if bool_decide (a ∈ names) then Some mt else None.
Proof. apply lookup_names. Qed.

Lemma rulesFor_cons (a : string) (names : list string) (mt : option regex) :
  rulesFor (a :: names) mt = rulesFor names mt ∪ {[a := mt]}.
Proof.
  apply map_eq. intros k. rewrite lookup_union, !rulesFor_lookup.
  destruct (decide (a = k)) as [<-|Hne].
  - rewrite lookup_singleton_eq, bool_decide_eq_true_2 by left.
    destruct (bool_decide (a ∈ names)); reflexivity.
  - rewrite lookup_singleton_ne, elem_of_cons_ne by exact Hne.
    destruct (bool_decide (k ∈ names)); reflexivity.
Qed.

Lemma rulesFor_insert (a : string) (names : list string) (mt : option regex)
  (g : gmap string (option regex)) :
  rulesFor names mt ∪ <[a := mt]> g = rulesFor (a :: names) mt ∪ g.
Proof.
  rewrite rulesFor_cons, insert_union_singleton_l, (assoc_L (∪)). reflexivity.
Qed.

Lemma Policy_eq (p q : Policy) :
  elements p = elements q -> elementAttributes p = elementAttributes q ->
  globalAttributes p = globalAttributes q -> urlPolicy p = urlPolicy q -> p = q.
Proof. destruct p, q; cbn; intros -> -> -> ->; reflexivity. Qed.

Lemma URLPolicy_eq (u v : URLPolicy) :
  requireParseable u = requireParseable v -> allowRelative u = allowRelative v ->
  allowedSchemes u = allowedSchemes v -> forceNoFollow u = forceNoFollow v ->
  noFollowElements u = noFollowElements v -> u = v.
Proof. destruct u, v; cbn; intros -> -> -> -> ->; reflexivity. Qed.

Lemma patch_noDelta (p : Policy) : patch noDelta p = p.
Proof.
  apply Policy_eq; cbn.
  - apply (left_id_L ∅ (∪)).
  - apply mergeRules_empty.
  - apply (left_id_L ∅ (∪)).
  - apply URLPolicy_eq; reflexivity.
Qed.

Lemma patch_after (d2 d1 : Delta) (p : Policy) :
  patch d2 (patch d1 p) = patch (after d2 d1) p.
Proof.
  apply Policy_eq; cbn.
  - apply (assoc_L (∪)).
  - apply mergeRules_assoc.
  - apply (assoc_L (∪)).
  - apply URLPolicy_eq; cbn;
      [destruct (dParseable d2) | destruct (dRelative d2) | destruct (dSchemes d2)
      | destruct (dNoFollow d2) | ]; reflexivity.
Qed.

Lemma orElse_idemp {A} (o : option A) : orElse o o = o.
Proof. destruct o; reflexivity. Qed.

Lemma after_idemp (d : Delta) : after d d = d.
Proof.
  destruct d. unfold after; cbn.
  rewrite !orElse_idemp, mergeRules_idemp, !(idemp_L (∪)). reflexivity.
Qed.

(** Writing the same cells twice is writing them once. *)
Lemma patch_idemp (d : Delta) (p : Policy) : patch d (patch d p) = patch d p.
Proof. rewrite patch_after, after_idemp. reflexivity. Qed.

Lemma AllowElements_patch (names : list string) (p : Policy) :
  AllowElements names p = patch (delta1 (PAllowElements names)) p.
Proof.
  unfold AllowElements. revert p. induction names as [|e names IH]; intros p.
  - symmetry. apply patch_noDelta.
  - cbn [foldl]. rewrite IH. apply Policy_eq; cbn; try reflexivity.
    rewrite (assoc_L (∪) (list_to_set names)), (comm_L (∪) (list_to_set names)).
    reflexivity.
Qed.

Lemma Globally_patch (names : list string) (mt : option regex) (p : Policy) :
  AllowAttrs p names |> withMatcher mt |> Globally =
  patch (delta1 (PAllowAttrs names mt TGlobally)) p.
Proof.
  transitivity (foldl (fun p a => setGlobalAttributes (insert a mt) p) p names).
  { destruct mt; reflexivity. }
  revert p. induction names as [|a names IH]; intros p.
  - symmetry. apply patch_noDelta.
  - cbn [foldl]. rewrite IH. apply Policy_eq; cbn; try reflexivity.
    apply rulesFor_insert.
Qed.

Lemma singleton_rules_cons (e a : string) (names : list string) (mt : option regex) :
  mergeRules
    match names with
    | [] => ∅
    | _ :: _ => {[e := rulesFor names mt]}
    end {[e := {[a := mt]}]} = {[e := rulesFor (a :: names) mt]}.
Proof.
  apply map_eq. intros e'. rewrite mergeRules_lookup.
  destruct (decide (e = e')) as [<-|Hne].
  - rewrite !lookup_singleton_eq. destruct names as [|a' names].
    + rewrite lookup_empty, rulesFor_cons. unfold rulesFor. cbn [list_to_set].
      rewrite gset_to_gmap_empty, (left_id_L ∅ (∪)). reflexivity.
    + rewrite lookup_singleton_eq, <- rulesFor_cons. reflexivity.
  - rewrite !lookup_singleton_ne by exact Hne.
    destruct names; [rewrite lookup_empty | rewrite lookup_singleton_ne by exact Hne];
      reflexivity.
Qed.

(** The rules one element gets from a builder. *)
Lemma element_rules (e : string) (names : list string) (mt : option regex) (p : Policy) :
  foldl (fun p a => setElementAttributes (setRule e a mt) p) p names =
  setElementAttributes
    (mergeRules match names with
                | [] => ∅
                | _ :: _ => {[e := rulesFor names mt]}
                end) p.
Proof.
  revert p. induction names as [|a names IH]; intros p.
  - cbn [foldl]. apply Policy_eq; cbn; try reflexivity.
    symmetry. apply mergeRules_empty.
  - cbn [foldl]. rewrite IH. apply Policy_eq; cbn; try reflexivity.
    rewrite setRule_merge, mergeRules_assoc, singleton_rules_cons. reflexivity.
Qed.

Lemma element_set_cons (e : string) (els : list string) (X : gmap string (option regex)) :
  mergeRules (gset_to_gmap X (list_to_set els)) {[e := X]} =
  gset_to_gmap X (list_to_set (e :: els)).
Proof.
  apply map_eq. intros e'. rewrite mergeRules_lookup, !lookup_names.
  destruct (decide (e = e')) as [<-|Hne].
  - rewrite lookup_singleton_eq, (bool_decide_eq_true_2 (e ∈ e :: els)) by left.
    destruct (bool_decide (e ∈ els)); [rewrite (idemp_L (∪))|]; reflexivity.
  - rewrite lookup_singleton_ne, elem_of_cons_ne by exact Hne.
    destruct (bool_decide (e' ∈ els)); reflexivity.
Qed.

Lemma OnElements_patch (names : list string) (mt : option regex) (els : list string)
  (p : Policy) :
  AllowAttrs p names |> withMatcher mt |> OnElements els =
  patch (delta1 (PAllowAttrs names mt (TOnElements els))) p.
Proof.
  transitivity
    (foldl (fun p e => foldl (fun p a => setElementAttributes (setRule e a mt) p) p names)
           p els).
  { destruct mt; reflexivity. }
  destruct names as [|a names].
  - transitivity p; [|symmetry; apply patch_noDelta].
    clear. induction els as [|e els IH]; [reflexivity | exact IH].
  - remember (a :: names) as ns eqn:Ens.
    revert p. induction els as [|e els IH]; intros p.
    + subst ns. cbn [foldl]. symmetry. apply Policy_eq; cbn; try reflexivity.
      * apply (left_id_L ∅ (∪)).
      * cbn [list_to_set]. rewrite gset_to_gmap_empty. apply mergeRules_empty.
      * apply (left_id_L ∅ (∪)).
      * apply URLPolicy_eq; reflexivity.
    + cbn [foldl]. rewrite IH, element_rules. subst ns.
      apply Policy_eq; [reflexivity | | reflexivity | reflexivity].
      set (X := rulesFor (a :: names) mt).
      change (mergeRules (gset_to_gmap X (list_to_set els))
                (mergeRules {[e := X]} (elementAttributes p)) =
              mergeRules (gset_to_gmap X (list_to_set (e :: els))) (elementAttributes p)).
      rewrite mergeRules_assoc, element_set_cons. reflexivity.
Qed.

Lemma prim_patch (c : Prim) (p : Policy) : prim p c = patch (delta1 c) p.
Proof.
  destruct c as [names|names mt [|els]|b|b|schemes|b]; cbn [prim].
  - apply AllowElements_patch.
  - apply Globally_patch.
  - apply OnElements_patch.
  - apply Policy_eq; cbn; try reflexivity;
      [symmetry; apply (left_id_L ∅ (∪)) | symmetry; apply mergeRules_empty
      | symmetry; apply (left_id_L ∅ (∪))].
  - apply Policy_eq; cbn; try reflexivity;
      [symmetry; apply (left_id_L ∅ (∪)) | symmetry; apply mergeRules_empty
      | symmetry; apply (left_id_L ∅ (∪))].
  - apply Policy_eq; cbn; try reflexivity;
      [symmetry; apply (left_id_L ∅ (∪)) | symmetry; apply mergeRules_empty
      | symmetry; apply (left_id_L ∅ (∪))].
  - apply Policy_eq; cbn; try reflexivity;
      [symmetry; apply (left_id_L ∅ (∪)) | symmetry; apply mergeRules_empty
      | symmetry; apply (left_id_L ∅ (∪))].
Qed.

Lemma prims_patch (cs : list Prim) (d : Delta) (p : Policy) :
  foldl prim (patch d p) cs = patch (deltas d cs) p.
Proof.
  revert d. induction cs as [|c cs IH]; intros d; [reflexivity|].
  cbn [foldl deltas]. rewrite prim_patch, patch_after. apply IH.
Qed.

(** A composite helper is the sequence of the statements of its body. *)
Lemma call_expand (c : Call) (p : Policy) : call p c = foldl prim p (expand c).
Proof.
  destruct c;
    unfold call, expand, expandStandardURLs, on, globally, AllowStandardURLs,
      AllowStandardAttributes, AllowImages, AllowLists, AllowTables, AllowStandardURLs;
    cbn [app foldl]; unfold prim, withMatcher; cbv zeta; reflexivity.
Qed.

Lemma call_patch (c : Call) (p : Policy) : call p c = patch (delta c) p.
Proof.
  rewrite call_expand. rewrite <- (patch_noDelta p) at 1. apply prims_patch.
Qed.

Lemma run_patch_from (cs : list Call) (d : Delta) (p : Policy) :
  run cs (patch d p) = patch (foldl (fun d c => after (delta c) d) d cs) p.
Proof.
  revert d. induction cs as [|c cs IH]; intros d; [reflexivity|].
  unfold run in *. cbn [foldl]. rewrite call_patch, patch_after. apply IH.
Qed.

(** Every call sequence is one set of writes. *)
Lemma run_patch (cs : list Call) (p : Policy) : run cs p = patch (runDelta cs) p.
Proof. rewrite <- (patch_noDelta p) at 1. apply run_patch_from. Qed.

Lemma run_twice (cs : list Call) (p : Policy) : run cs (run cs p) = run cs p.
Proof. rewrite !run_patch. apply patch_idemp. Qed.

Lemma run_app (cs1 cs2 : list Call) (p : Policy) :
  run (cs1 ++ cs2) p = run cs2 (run cs1 p).
Proof. unfold run. apply foldl_app. Qed.

(** ** Reading a patched policy *)

Lemma patch_rule (d : Delta) (p : Policy) (e a : string) (r : option regex) :
  dRules d !! e ≫= (fun rules => rules !! a) = Some r ->
  isElementAdmissible (patch d p) e = true /\ resolve (patch d p) e a = Some r.
Proof.
  intros H. destruct (dRules d !! e) as [n|] eqn:En; [|discriminate]. cbn in H.
  assert (exists rules, elementAttributes (patch d p) !! e = Some rules /\
                        rules !! a = Some r) as (rules & Hr & Ha).
  { cbn [elementAttributes patch]. rewrite mergeRules_lookup, En.
    destruct (elementAttributes p !! e) as [o|].
    - exists (n ∪ o). split; [reflexivity|]. apply lookup_union_Some_l. exact H.
    - exists n. split; [reflexivity | exact H]. }
  split.
  - unfold isElementAdmissible. rewrite Hr. apply orb_true_iff. right.
    destruct (size rules) eqn:Es; [|reflexivity].
    apply map_size_empty_iff in Es. subst rules. rewrite lookup_empty in Ha. discriminate.
  - unfold resolve. rewrite Hr. cbn. rewrite Ha. reflexivity.
Qed.

Lemma AllowTables_patch (p : Policy) : AllowTables p = patch (delta CAllowTables) p.
Proof. apply (call_patch CAllowTables). Qed.

Lemma AllowLists_patch (p : Policy) : AllowLists p = patch (delta CAllowLists) p.
Proof. apply (call_patch CAllowLists). Qed.

(** ** Evaluation through a resolved rule *)

Section Claims.

Variable unicode : string -> rune -> bool.

Lemma evaluate_rule (q : Policy) (e a v : string) (mt : option regex) :
  isElementAdmissible q e = true -> resolve q e a = Some mt -> isURLAttr a = false ->
  evaluate unicode q e a v = if accepts unicode mt v then Keep v [] else Drop.
Proof.
  intros Ha Hr Hu. unfold evaluate, test. rewrite Ha, Hr, Hu. cbn [negb].
  destruct (accepts unicode mt v); reflexivity.
Qed.

Lemma evaluate_url (q : Policy) (e a v : string) (mt : option regex) :
  isElementAdmissible q e = true -> resolve q e a = Some mt -> isURLAttr a = true ->
  accepts unicode mt v = true ->
  evaluate unicode q e a v =
  match admitURL (urlPolicy q) a v e with
  | Some (v', extra) => Keep v' extra
  | None => Drop
  end.
Proof.
  intros Ha Hr Hu Hv. unfold evaluate, test. rewrite Ha, Hr, Hu, Hv. reflexivity.
Qed.

(** A URL that admission rejects is dropped whatever the rules are. *)
Lemma evaluate_rejected (q : Policy) (e a v : string) :
  isURLAttr a = true -> admitURL (urlPolicy q) a v e = None ->
  evaluate unicode q e a v = Drop.
Proof.
  intros Hu Hr. unfold evaluate, test.
  destruct (isElementAdmissible q e); [|reflexivity]. cbn [negb].
  destruct (resolve q e a) as [mt|]; [|reflexivity].
  destruct (accepts unicode mt v); [|reflexivity].
  rewrite Hu, Hr. reflexivity.
Qed.

(** ** The matchers of [helpers.go] *)

(** C1: the free-text matcher is to reject every value with a [<] or [>];
    [Paragraph], a starred class without anchors, matches the empty text
    inside every value and so accepts them all, here the values [<script>]
    and [a>b]. *)
Theorem Paragraph_accepts_angle_brackets :
  MatchString unicode Paragraph "<script>" = true /\
  MatchString unicode Paragraph "a>b" = true /\
  (forall s, MatchString unicode Paragraph s = true).
Proof. repeat split; intros; apply Paragraph_total. Qed.

(** C4: [ISO8601] rejects the extended form [2014-05-20T10:00:00Z], which
    the claim expects it to accept: the pattern has no separator between
    month and day nor between minutes and seconds. It rejects [2014-13-40]
    and accepts the year [2014], and it accepts the date and time written
    without separators. *)
Theorem ISO8601_examples :
  MatchString unicode ISO8601 "2014-05-20T10:00:00Z" = false /\
  MatchString unicode ISO8601 "2014-13-40" = false /\
  MatchString unicode ISO8601 "2014" = true /\
  MatchString unicode ISO8601 "20140520T100000Z" = true /\
  MatchString unicode ISO8601 "2014-0520T10:0000Z" = true.
Proof. repeat split; vm_compute; reflexivity. Qed.

(** C5: the matcher registered for [nowrap] is to accept the empty value and
    the token [nowrap] only; its pattern has an empty alternative and no
    anchors, so it accepts every value, here [yes] and [<script>]. *)
Theorem Nowrap_accepts_everything :
  MatchString unicode Nowrap "yes" = true /\
  MatchString unicode Nowrap "<script>" = true /\
  (forall s, MatchString unicode Nowrap s = true).
Proof. repeat split; intros; apply Nowrap_total. Qed.

(** C10: [Integer] accepts a string exactly when the string has an ASCII
    digit somewhere; so [2x] and [-5] are accepted, also where [Integer]
    guards an attribute: [colspan], [rowspan] and [span] after [AllowTables]
    and the [value] of [li] after [AllowLists]. *)
Theorem Integer_accepts_iff_digit (s : string) (p : Policy) :
  (MatchString unicode Integer s = true <->
   exists c, In c (list_ascii_of_string s) /\ is_digit c = true) /\
  MatchString unicode Integer "2x" = true /\
  MatchString unicode Integer "-5" = true /\
  resolve (AllowTables p) "td" "colspan" = Some (Some Integer) /\
  resolve (AllowTables p) "td" "rowspan" = Some (Some Integer) /\
  resolve (AllowTables p) "col" "span" = Some (Some Integer) /\
  resolve (AllowLists p) "li" "value" = Some (Some Integer) /\
  evaluate unicode (AllowTables p) "td" "colspan" "2x" = Keep "2x" [] /\
  evaluate unicode (AllowLists p) "li" "value" "-5" = Keep "-5" [].
Proof.
  rewrite AllowTables_patch, AllowLists_patch.
  destruct (patch_rule (delta CAllowTables) p "td" "colspan" (Some Integer) eq_refl)
    as [Ha1 Hr1].
  destruct (patch_rule (delta CAllowTables) p "td" "rowspan" (Some Integer) eq_refl)
    as [_ Hr2].
  destruct (patch_rule (delta CAllowTables) p "col" "span" (Some Integer) eq_refl)
    as [_ Hr3].
  destruct (patch_rule (delta CAllowLists) p "li" "value" (Some Integer) eq_refl)
    as [Ha4 Hr4].
  rewrite (evaluate_rule _ _ _ _ _ Ha1 Hr1 eq_refl).
  rewrite (evaluate_rule _ _ _ _ _ Ha4 Hr4 eq_refl).
  unfold accepts. rewrite !MatchString_Integer.
  repeat split; try assumption; try reflexivity; apply has_digit_iff.
Qed.

(** C6: after [AllowTables], [colspan] on [td] is guarded by [Integer]: the
    value [2] is kept as it is and the value [two] is dropped. *)
Theorem AllowTables_colspan (p : Policy) :
  resolve (AllowTables p) "td" "colspan" = Some (Some Integer) /\
  evaluate unicode (AllowTables p) "td" "colspan" "2" = Keep "2" [] /\
  evaluate unicode (AllowTables p) "td" "colspan" "two" = Drop.
Proof.
  rewrite AllowTables_patch.
  destruct (patch_rule (delta CAllowTables) p "td" "colspan" (Some Integer) eq_refl)
    as [Ha Hr].
  rewrite !(evaluate_rule _ _ _ _ _ Ha Hr eq_refl).
  unfold accepts. rewrite !MatchString_Integer.
  repeat split; assumption || reflexivity.
Qed.

End Claims.

(** ** The standard URL policy *)

Lemma standard_schemes :
  list_to_set (map ToLower ["mailto"; "http"; "https"]) =
  ({[ "mailto"; "http"; "https" ]} : gset string).
Proof. vm_compute. reflexivity. Qed.

Lemma AllowStandardURLs_urlPolicy (p : Policy) :
  urlPolicy (AllowStandardURLs p) = standardURLs (urlPolicy p).
Proof. apply URLPolicy_eq; try reflexivity. Qed.

Lemma AllowStandardURLs_rules (p : Policy) :
  elements (AllowStandardURLs p) = elements p /\
  elementAttributes (AllowStandardURLs p) = elementAttributes p /\
  globalAttributes (AllowStandardURLs p) = globalAttributes p.
Proof. repeat split. Qed.

Lemma standard_rejects_javascript (u : URLPolicy) (a e : string) :
  admitURL (standardURLs u) a "javascript:alert(1)" e = None.
Proof. reflexivity. Qed.

Lemma standard_admits_http (u : URLPolicy) (a : string) :
  admitURL (standardURLs u) a "http://example.com" "a" =
  Some ("http://example.com", [("rel", ["nofollow"])]).
Proof. reflexivity. Qed.

(** ** Injected attributes *)

Lemma mergeTokens_prefix (existing required : list string) :
  existing `prefix_of` mergeTokens existing required.
Proof. exists (filter (fun t => t ∉ existing) required). reflexivity. Qed.

Lemma mergeTokens_has (existing : list string) (t : string) :
  t ∈ mergeTokens existing [t].
Proof.
  unfold mergeTokens. apply elem_of_app.
  destruct (decide (t ∈ existing)) as [Hin|Hin]; [left; exact Hin|].
  right. apply list_elem_of_filter. split; [exact Hin | left].
Qed.

Lemma inject_same (attrs : list injected) (name : string) (required : list string) :
  attr name (inject attrs (name, required)) =
  Some match attr name attrs with
       | Some old => mergeTokens old required
       | None => required
       end.
Proof.
  induction attrs as [|[n v] attrs IH]; cbn [inject attr fst snd].
  - rewrite String.eqb_refl. reflexivity.
  - destruct (String.eqb n name) eqn:E; cbn [attr]; rewrite E; [reflexivity | exact IH].
Qed.

Lemma inject_other (attrs : list injected) (i : injected) (name : string) :
  name <> fst i -> attr name (inject attrs i) = attr name attrs.
Proof.
  destruct i as [ni vi]. cbn [fst].
  intros Hne. induction attrs as [|[n v] attrs IH]; cbn [inject attr fst snd].
  - destruct (String.eqb_spec ni name) as [E|_]; [congruence | reflexivity].
  - destruct (String.eqb_spec n ni) as [E|E]; cbn [attr].
    + subst n. destruct (String.eqb_spec ni name); [congruence | reflexivity].
    + rewrite IH. reflexivity.
Qed.

Section URLClaims.

Variable unicode : string -> rune -> bool.

(** C2: on a policy whose URL policy is the one [AllowStandardURLs] leaves,
    the allowed schemes are mailto, http and https, and the [href] value
    [javascript:alert(1)] of an [a] is dropped, in any letter case of the
    scheme. *)
Theorem standard_URLs_drop_javascript (p q : Policy) :
  urlPolicy q = urlPolicy (AllowStandardURLs p) ->
  allowedSchemes (urlPolicy q) = {[ "mailto"; "http"; "https" ]} /\
  evaluate unicode q "a" "href" "javascript:alert(1)" = Drop /\
  evaluate unicode q "a" "href" "JavaScript:alert(1)" = Drop /\
  evaluate unicode (AllowStandardURLs p) "a" "href" "javascript:alert(1)" = Drop.
Proof.
  intros Hq. rewrite AllowStandardURLs_urlPolicy in Hq.
  split; [rewrite Hq; reflexivity|].
  repeat split; apply evaluate_rejected; try reflexivity; rewrite Hq; reflexivity.
Qed.

(** C3: on a policy whose URL policy is the one [AllowStandardURLs] leaves,
    where [a] is admissible and the rule that [href] resolves to accepts the
    value, [http://example.com] is kept and [rel] is injected with the token
    nofollow; injecting it keeps the tokens [rel] already has, in their
    order, adds nofollow to them, and leaves the other attributes alone. *)
Theorem standard_URLs_keep_http_nofollow (p q : Policy) (mt : option regex) :
  urlPolicy q = urlPolicy (AllowStandardURLs p) ->
  isElementAdmissible q "a" = true ->
  resolve q "a" "href" = Some mt ->
  accepts unicode mt "http://example.com" = true ->
  evaluate unicode q "a" "href" "http://example.com" =
    Keep "http://example.com" [("rel", ["nofollow"])] /\
  forall attrs : list injected,
    (exists toks,
        attr "rel" (inject attrs ("rel", ["nofollow"])) = Some toks /\
        "nofollow" ∈ toks /\
        forall old, attr "rel" attrs = Some old -> old `prefix_of` toks) /\
    (forall name, name <> "rel" ->
                  attr name (inject attrs ("rel", ["nofollow"])) = attr name attrs).
Proof.
  intros Hq Ha Hr Hv. rewrite AllowStandardURLs_urlPolicy in Hq. split.
  - rewrite (evaluate_url unicode q _ _ _ mt Ha Hr eq_refl Hv), Hq. reflexivity.
  - intros attrs. split.
    + eexists. split; [apply inject_same|]. destruct (attr "rel" attrs) as [old|].
      * split; [apply mergeTokens_has|]. intros ? [= <-]. apply mergeTokens_prefix.
      * split; [left | discriminate].
    + intros name Hne. apply inject_other. exact Hne.
Qed.

End URLClaims.

(** ** The composite helpers *)

Lemma setRule_insert (e a : string) (r : option regex) (rules : gmap string (option regex))
  (ea : gmap string (gmap string (option regex))) :
  setRule e a r (<[e := rules]> ea) = <[e := <[a := r]> rules]> ea.
Proof.
  unfold setRule. rewrite lookup_insert_eq, insert_insert_eq. reflexivity.
Qed.

(** C7: [AllowStandardAttributes] binds the four global attribute names
    [dir], [lang], [id] and [title] to [Direction], the pattern
    [[a-zA-Z]{2,20}], the pattern [[a-zA-Z0-9\:\-_\.]+] and [Paragraph], and
    changes nothing else of the policy; on a new policy these are the only
    rules, and no element is admissible. *)
Theorem AllowStandardAttributes_rules (p : Policy) :
  globalAttributes (AllowStandardAttributes p) =
    <["title" := Some Paragraph]>
      (<["id" := Some Id]>
         (<["lang" := Some Lang]>
            (<["dir" := Some Direction]> (globalAttributes p)))) /\
  elements (AllowStandardAttributes p) = elements p /\
  elementAttributes (AllowStandardAttributes p) = elementAttributes p /\
  urlPolicy (AllowStandardAttributes p) = urlPolicy p /\
  (forall e, isElementAdmissible (AllowStandardAttributes p) e = isElementAdmissible p e) /\
  show Lang = "[a-zA-Z]{2,20}" /\
  show Id = "[a-zA-Z0-9\:\-_\.]+" /\
  globalAttributes (AllowStandardAttributes emptyPolicy) =
    list_to_map [("dir", Some Direction); ("lang", Some Lang); ("id", Some Id);
                 ("title", Some Paragraph)] /\
  size (globalAttributes (AllowStandardAttributes emptyPolicy)) = 4%nat /\
  elementAttributes (AllowStandardAttributes emptyPolicy) = ∅ /\
  (forall e, isElementAdmissible (AllowStandardAttributes emptyPolicy) e = false).
Proof.
  repeat split; vm_compute; reflexivity.
Qed.

(** C8: [AllowImages] yields the policy that the spec's sequence of rule
    registrations yields: on [img], [align], [alt], [height], [width] and
    [src] are bound to [ImageAlign], [Paragraph], [NumberOrPercent] twice
    and no matcher; the URL policy becomes the standard one; element rules
    and global rules stay as they were. *)
Theorem AllowImages_is_its_sequence (p : Policy) :
  AllowImages p = AllowImages_spec p /\
  elementAttributes (AllowImages p) =
    <["img" :=
        <["src" := None]>
          (<["width" := Some NumberOrPercent]>
             (<["height" := Some NumberOrPercent]>
                (<["alt" := Some Paragraph]>
                   (<["align" := Some ImageAlign]>
                      (default ∅ (elementAttributes p !! "img"))))))]>
      (elementAttributes p) /\
  urlPolicy (AllowImages p) = standardURLs (urlPolicy p) /\
  elements (AllowImages p) = elements p /\
  globalAttributes (AllowImages p) = globalAttributes p.
Proof.
  split; [|split]; [| |repeat split].
  - apply Policy_eq; reflexivity.
  - change (elementAttributes (AllowImages p))
      with (setRule "img" "src" None
              (setRule "img" "width" (Some NumberOrPercent)
                 (setRule "img" "height" (Some NumberOrPercent)
                    (setRule "img" "alt" (Some Paragraph)
                       (setRule "img" "align" (Some ImageAlign) (elementAttributes p)))))).
    unfold setRule at 5. rewrite !setRule_insert. reflexivity.
Qed.

Section Idempotence.

Variable unicode : string -> rune -> bool.

(** C9: a sequence of builder calls applied twice leaves the policy that
    applying it once leaves, so every verdict of [evaluate] and of
    [isElementAdmissible] is the same and no rule is there twice; in
    particular for [AllowTables]. *)
Theorem builder_calls_idempotent (cs : list Call) (p : Policy) :
  run (cs ++ cs) p = run cs p /\
  (forall e a v,
      evaluate unicode (run (cs ++ cs) p) e a v = evaluate unicode (run cs p) e a v) /\
  (forall e, isElementAdmissible (run (cs ++ cs) p) e = isElementAdmissible (run cs p) e) /\
  AllowTables (AllowTables p) = AllowTables p /\
  (forall e a v,
      evaluate unicode (AllowTables (AllowTables p)) e a v =
      evaluate unicode (AllowTables p) e a v).
Proof.
  assert (H : run (cs ++ cs) p = run cs p) by (rewrite run_app; apply run_twice).
  assert (T : AllowTables (AllowTables p) = AllowTables p)
    by apply (run_twice [CAllowTables] p).
  rewrite H, T. repeat split.
Qed.

End Idempotence.

(** ** The theorems at a concrete policy *)

Lemma standard_URLs_drop_javascript_witness :
  urlPolicy linkPolicy = urlPolicy (AllowStandardURLs emptyPolicy) /\
  evaluate unicodeASCII linkPolicy "a" "href" "javascript:alert(1)" = Drop.
Proof.
  split; [reflexivity|].
  exact (proj1 (proj2 (standard_URLs_drop_javascript unicodeASCII emptyPolicy linkPolicy
                         eq_refl))).
Defined.

Lemma standard_URLs_keep_http_nofollow_witness :
  urlPolicy linkPolicy = urlPolicy (AllowStandardURLs emptyPolicy) /\
  isElementAdmissible linkPolicy "a" = true /\
  resolve linkPolicy "a" "href" = Some None /\
  accepts unicodeASCII None "http://example.com" = true /\
  evaluate unicodeASCII linkPolicy "a" "href" "http://example.com" =
    Keep "http://example.com" [("rel", ["nofollow"])].
Proof.
  repeat (split; [reflexivity|]).
  exact (proj1 (standard_URLs_keep_http_nofollow unicodeASCII emptyPolicy linkPolicy None
                  eq_refl eq_refl eq_refl eq_refl)).
Defined.

(** * Further properties of [helpers.go] *)

(** ** Decoding keeps the ASCII bytes where they are *)

Lemma DecodeRune_cases (b0 : N) (t : list N) (r : rune) (w : nat) :
  DecodeRune (b0 :: t) = (r, w) ->
  (b0 < 0x80 /\ r = b0 /\ w = 1%nat) \/
  (0x80 <= b0 /\ 0x80 <= r /\ (1 <= w)%nat /\
   Forall (fun b => 0x80 <= b) (take w (b0 :: t))).
Proof.
  cbn [DecodeRune].
  destruct (N.ltb_spec b0 0x80) as [Hlt|Hge].
  { intros [= <- <-]. left. auto. }
  assert (Herr : (RuneError, 1%nat) = (r, w) ->
                 (b0 < 0x80 /\ r = b0 /\ w = 1%nat) \/
                 (0x80 <= b0 /\ 0x80 <= r /\ (1 <= w)%nat /\
                  Forall (fun b => 0x80 <= b) (take w (b0 :: t)))).
  { intros [= <- <-]. right. repeat split; [exact Hge | unfold RuneError; lia | lia |].
    cbn [take]. repeat constructor. exact Hge. }
  destruct ((b0 <? 0xC2) || (0xF4 <? b0)) eqn:Hr; [exact Herr|].
  apply orb_false_iff in Hr as [H1 H2]. apply N.ltb_ge in H1, H2.
  destruct (N.ltb_spec b0 0xE0) as [H3|H3]; [|destruct (N.ltb_spec b0 0xF0) as [H4|H4]].
  - destruct t as [|b1 t]; [exact Herr|].
    destruct (second b0 b1) eqn:Hs; [|exact Herr].
    apply second_high in Hs as (Hs & _ & _).
    intros [= <- <-]. right. repeat split; [exact Hge | unfold low6; lia | lia |].
    cbn [take]. repeat constructor; assumption.
  - destruct t as [|b1 [|b2 t]]; [exact Herr | exact Herr |].
    destruct (second b0 b1 && cont b2) eqn:Hs; [|exact Herr].
    apply andb_true_iff in Hs as [Hs Hc2]. apply cont_high in Hc2.
    apply second_high in Hs as (Hs & HE & _).
    intros [= <- <-]. right. repeat split; [exact Hge | unfold low6; lia | lia |].
    cbn [take]. repeat constructor; assumption.
  - destruct t as [|b1 [|b2 [|b3 t]]]; [exact Herr | exact Herr | exact Herr |].
    destruct (second b0 b1 && cont b2 && cont b3) eqn:Hs; [|exact Herr].
    apply andb_true_iff in Hs as [Hs Hc3]. apply andb_true_iff in Hs as [Hs Hc2].
    apply cont_high in Hc2, Hc3. apply second_high in Hs as (Hs & _ & HF).
    intros [= <- <-]. right. repeat split; [exact Hge | unfold low6; lia | lia |].
    cbn [take]. repeat constructor; assumption.
Qed.

Lemma window_high (ps : list (rune -> bool)) (x : rune) (l : list rune) :
  ps <> [] -> Forall ascii_only ps -> 0x80 <= x -> window ps (x :: l) = false.
Proof.
  destruct ps as [|p ps]; [congruence|]. intros _ Hps Hx.
  apply Forall_cons in Hps as [Hp _]. cbn [window]. rewrite (Hp x Hx). reflexivity.
Qed.

(** A window of ASCII tests sees the same in the decoded text as in the
    bytes. *)
Lemma window_decode_loop (ps : list (rune -> bool)) (n : nat) (s : list N) :
  Forall ascii_only ps -> (length s <= n)%nat ->
  window ps (decode_loop n s) = window ps s.
Proof.
  intros Hps. revert n s. induction Hps as [|p ps Hp Hps IH]; intros n s Hn.
  - reflexivity.
  - destruct s as [|b0 t]; [destruct n; reflexivity|].
    destruct n as [|n]; [cbn in Hn; lia|]. cbn [decode_loop].
    destruct (DecodeRune (b0 :: t)) as [r w] eqn:E. cbn [window].
    apply DecodeRune_cases in E as [(Hlt & -> & ->)|(Hb & Hr & Hw & Hall)].
    + change (drop 1 (b0 :: t)) with t. rewrite IH by (simpl in Hn; lia). reflexivity.
    + rewrite (Hp r Hr), (Hp b0 Hb). reflexivity.
Qed.

Lemma anywhere_skip (q : list rune -> bool) (w : nat) (s : list N) :
  (forall x l, 0x80 <= x -> q (x :: l) = false) ->
  Forall (fun b => 0x80 <= b) (take w s) ->
  anywhere q s = anywhere q (drop w s).
Proof.
  intros Hq. revert s. induction w as [|w IH]; intros s Hall; [reflexivity|].
  destruct s as [|b t]; [reflexivity|]. cbn [take] in Hall.
  apply Forall_cons in Hall as [Hb Hall]. cbn [anywhere drop].
  rewrite (Hq b t Hb). apply IH. exact Hall.
Qed.

Lemma anywhere_decode_loop (q : list rune -> bool) (n : nat) (s : list N) :
  (forall x l, 0x80 <= x -> q (x :: l) = false) ->
  (forall n s, (length s <= n)%nat -> q (decode_loop n s) = q s) ->
  (length s <= n)%nat ->
  anywhere q (decode_loop n s) = anywhere q s.
Proof.
  intros Hq Hd. revert s. induction n as [|n IH]; intros s Hn.
  - destruct s; [reflexivity | simpl in Hn; lia].
  - destruct s as [|b0 t]; [reflexivity|].
    pose proof (Hd (S n) (b0 :: t) Hn) as Hhere. cbn [decode_loop] in Hhere |- *.
    destruct (DecodeRune (b0 :: t)) as [r w] eqn:E.
    cbn [anywhere]. rewrite Hhere. f_equal.
    assert (Hl : (length (drop w (b0 :: t)) <= n)%nat).
    { apply DecodeRune_cases in E as [(_ & _ & ->)|(_ & _ & Hw & _)];
        rewrite length_drop; simpl in Hn |- *; lia. }
    rewrite (IH _ Hl).
    apply DecodeRune_cases in E as [(_ & _ & ->)|(Hb & _ & Hw & Hall)].
    + reflexivity.
    + rewrite <- (anywhere_skip q w (b0 :: t) Hq Hall). cbn [anywhere].
      rewrite (Hq b0 t Hb). reflexivity.
Qed.

(** So a pattern that tests a window of ASCII runes anywhere in the text
    gives the same verdict on the bytes of the text. *)
Lemma anywhere_decode (ps : list (rune -> bool)) (s : string) :
  ps <> [] -> Forall ascii_only ps ->
  anywhere (window ps) (decode s) = anywhere (window ps) (bytes s).
Proof.
  intros Hne Hps. unfold decode. apply anywhere_decode_loop; [| |lia].
  - intros x l Hx. apply window_high; assumption.
  - intros n s' Hn. apply window_decode_loop; assumption.
Qed.

(** ** Patterns without anchors *)

Lemma anywhere_one (p : rune -> bool) (l : list rune) :
  anywhere (window [p]) l = existsb p l.
Proof.
  induction l as [|x l IH]; [reflexivity|].
  cbn [anywhere existsb]. rewrite IH. cbn [window]. rewrite andb_true_r. reflexivity.
Qed.

Lemma anywhere_split (q : list rune -> bool) (l : list rune) :
  anywhere q l = true <-> exists pre post, l = pre ++ post /\ q post = true.
Proof.
  induction l as [|x l IH]; cbn [anywhere]; rewrite orb_true_iff.
  - split.
    + intros [H|H]; [|discriminate]. exists [], []. auto.
    + intros (pre & post & E & H). symmetry in E. apply app_eq_nil in E as [_ ->]. auto.
  - rewrite IH. split.
    + intros [H|(pre & post & -> & H)]; [exists [], (x :: l) | exists (x :: pre), post]; auto.
    + intros ([|y pre] & post & E & H).
      * left. cbn in E. subst post. exact H.
      * right. cbn in E. injection E as <- ->. eauto.
Qed.

Lemma exists_char_iff (p : rune -> bool) (pa : ascii -> bool) (s : string) :
  (forall c, p (N_of_ascii c) = pa c) ->
  existsb p (bytes s) = true <->
  exists c, In c (list_ascii_of_string s) /\ pa c = true.
Proof.
  intros E. unfold bytes. rewrite existsb_exists. split.
  - intros (x & Hin & Hx). apply in_map_iff in Hin as (c & <- & Hc).
    rewrite E in Hx. eauto.
  - intros (c & Hc & Hp). exists (N_of_ascii c). rewrite E. split; [|exact Hp].
    apply in_map. exact Hc.
Qed.

Section Unanchored.

Variable unicode : string -> rune -> bool.

Lemma search_anywhere (r : regex) (q : list rune -> bool) :
  (forall at0 l, m unicode false r accept at0 l = q l) ->
  forall at0 l, search unicode r at0 l = anywhere q l.
Proof.
  intros Hq at0 l. revert at0. induction l as [|x l IH]; intros at0; cbn [search anywhere].
  - rewrite Hq. reflexivity.
  - rewrite Hq, IH. reflexivity.
Qed.

Lemma Plus_class_here (items : list item) (at0 : bool) (l : list rune) :
  m unicode false (Plus (CharClass false items)) accept at0 l =
  window [in_class unicode false false items] l.
Proof.
  destruct l as [|x t]; [reflexivity|].
  cbn [m one window]. rewrite star_accept. reflexivity.
Qed.

(** A class repeated once or more, without anchors, accepts the texts that
    have one byte of the class. *)
Lemma Plus_class_bytes (items : list item) (s : string) :
  ascii_only (in_class unicode false false items) ->
  MatchString unicode (Plus (CharClass false items)) s =
  existsb (in_class unicode false false items) (bytes s).
Proof.
  intros Ha. unfold MatchString.
  rewrite (search_anywhere _ _ (Plus_class_here items)).
  rewrite anywhere_decode; [apply anywhere_one | congruence |].
  constructor; [exact Ha | constructor].
Qed.

End Unanchored.

Lemma in_perl_high (k : perl) : ascii_only (in_perl k).
Proof.
  intros x Hx. destruct k; cbn [in_perl].
  - destruct (N.leb_spec x 57); [lia|]. apply andb_false_r.
  - cbn [existsb].
    repeat match goal with
           | |- context [x =? ?c] => destruct (N.eqb_spec x c); [lia|]
           end.
    reflexivity.
Qed.

Section ClassPatterns.

Variable unicode : string -> rune -> bool.

Lemma in_item_high (i : item) :
  item_ascii i = true -> ascii_only (in_item unicode i).
Proof.
  intros Hi x Hx. destruct i as [c|c|lo hi|k|name]; cbn [in_item item_ascii] in *.
  - apply N.ltb_lt in Hi. apply N.eqb_neq. lia.
  - apply N.ltb_lt in Hi. apply N.eqb_neq. lia.
  - apply N.ltb_lt in Hi. destruct (N.leb_spec x (N_of_ascii hi)); [lia|].
    apply andb_false_r.
  - apply in_perl_high. exact Hx.
  - discriminate.
Qed.

Lemma in_class_high (items : list item) :
  forallb item_ascii items = true -> ascii_only (in_class unicode false false items).
Proof.
  intros Hall x Hx. unfold in_class, variants. cbn [existsb xorb]. rewrite orb_false_r.
  induction items as [|i items IH]; [reflexivity|].
  cbn [forallb] in Hall. apply andb_true_iff in Hall as [Hi Hall].
  cbn [existsb]. rewrite (in_item_high i Hi x Hx). apply IH. exact Hall.
Qed.

(** X1: [NamesAndSpaces], a class repeated with no anchors, accepts exactly
    the texts that have at least one letter, digit, [-], [_] or [$]; the
    other characters of the text are not looked at. *)
Theorem NamesAndSpaces_accepts_iff (s : string) :
  MatchString unicode NamesAndSpaces s = true <->
  exists c, In c (list_ascii_of_string s) /\ is_name_char c = true.
Proof.
  unfold NamesAndSpaces. rewrite Plus_class_bytes by (apply in_class_high; reflexivity).
  apply exists_char_iff.
  intros c. destruct c as [[] [] [] [] [] [] [] []]; reflexivity.
Qed.

(** X2: the pattern of [id] in [AllowStandardAttributes] accepts exactly the
    texts that have at least one letter, digit, [:], [-], [_] or [.]. *)
Theorem Id_accepts_iff (s : string) :
  MatchString unicode Id s = true <->
  exists c, In c (list_ascii_of_string s) /\ is_id_char c = true.
Proof.
  unfold Id. rewrite Plus_class_bytes by (apply in_class_high; reflexivity).
  apply exists_char_iff.
  intros c. destruct c as [[] [] [] [] [] [] [] []]; reflexivity.
Qed.

Lemma star_total (f : kmatcher) (k : cont_t) (n : nat) (at0 : bool) (s : list rune) :
  (forall a s', k a s' = true) -> star f k n at0 s = true.
Proof. intros Hk. destruct n; cbn [star]; rewrite Hk; reflexivity. Qed.

Lemma NumberOrPercent_here (at0 : bool) (l : list rune) :
  m unicode false NumberOrPercent accept at0 l = m unicode false Integer accept at0 l.
Proof.
  rewrite Integer_here. destruct l as [|x t]; [reflexivity|].
  unfold NumberOrPercent, cat, digit. cbn [m one].
  rewrite star_total by (intros; apply orb_true_r).
  unfold in_class, variants. cbn [existsb in_item in_perl xorb].
  rewrite !orb_false_r, andb_true_r. reflexivity.
Qed.

(** X3: [NumberOrPercent] gives the verdict of [Integer] on every text: it
    accepts exactly the texts with an ASCII digit, and its [%] is never
    asked for. *)
Theorem NumberOrPercent_is_Integer (s : string) :
  MatchString unicode NumberOrPercent s = MatchString unicode Integer s /\
  (MatchString unicode NumberOrPercent s = true <->
   exists c, In c (list_ascii_of_string s) /\ is_digit c = true).
Proof.
  assert (E : MatchString unicode NumberOrPercent s = MatchString unicode Integer s).
  { unfold MatchString.
    rewrite (search_anywhere unicode NumberOrPercent _ (fun a l => eq_refl)).
    rewrite (search_anywhere unicode Integer _ (fun a l => eq_sym (NumberOrPercent_here a l))).
    reflexivity. }
  split; [exact E|]. rewrite E, MatchString_Integer. apply has_digit_iff.
Qed.

End ClassPatterns.

(** ** Words *)

Lemma upto_accept (f : kmatcher) (n : nat) (at0 : bool) (s : list rune) :
  upto f n accept at0 s = true.
Proof. destruct n; reflexivity. Qed.

Lemma N_of_lower_ascii (d : ascii) :
  N_of_ascii (lower_ascii d) =
  if is_upper (N_of_ascii d) then N_of_ascii d + 32 else N_of_ascii d.
Proof.
  unfold lower_ascii, is_upper.
  destruct ((65 <=? N_of_ascii d) && (N_of_ascii d <=? 90)) eqn:E; [|reflexivity].
  apply andb_true_iff in E as [_ E]. apply N.leb_le in E.
  apply N_ascii_embedding. lia.
Qed.

(** On a byte, matching a letter up to case folding is comparing the lower
    cases. *)
Lemma eq_char_fold_byte (c d : ascii) :
  eq_char true c (N_of_ascii d) = Ascii.eqb (lower_ascii d) (lower_ascii c).
Proof.
  assert (Hc := N_ascii_bounded c). assert (Hd := N_ascii_bounded d).
  destruct (Ascii.eqb_spec (lower_ascii d) (lower_ascii c)) as [E|E].
  - apply (f_equal N_of_ascii) in E. rewrite !N_of_lower_ascii in E.
    unfold eq_char, variants, orbit, is_upper, is_lower in *.
    repeat match goal with
           | H : context [?a <=? ?b] |- _ => destruct (N.leb_spec a b); cbn [andb] in H
           | |- context [?a <=? ?b] => destruct (N.leb_spec a b); cbn [andb]
           | |- context [?a =? ?b] => destruct (N.eqb_spec a b); cbn [orb existsb]
           end; try reflexivity; try lia.
  - assert (E' : N_of_ascii (lower_ascii d) <> N_of_ascii (lower_ascii c)).
    { intros H. apply E. rewrite <- (ascii_N_embedding (lower_ascii d)),
                           <- (ascii_N_embedding (lower_ascii c)), H. reflexivity. }
    rewrite !N_of_lower_ascii in E'.
    unfold eq_char, variants, orbit, is_upper, is_lower in *.
    repeat match goal with
           | H : context [?a <=? ?b] |- _ => destruct (N.leb_spec a b); cbn [andb] in H
           | |- context [?a <=? ?b] => destruct (N.leb_spec a b); cbn [andb]
           | |- context [?a =? ?b] => destruct (N.eqb_spec a b); cbn [orb existsb]
           end; try reflexivity; try lia.
Qed.

Lemma window_word_bytes (w s : string) :
  window (word true w) (bytes s) = prefix_fold w s.
Proof.
  revert s. induction w as [|c w IH]; intros s; [reflexivity|].
  destruct s as [|d s]; [reflexivity|].
  cbn [word list_ascii_of_string map window bytes prefix_fold].
  rewrite eq_char_fold_byte. f_equal. apply IH.
Qed.

Lemma anywhere_ext (q q' : list rune -> bool) (l : list rune) :
  (forall l', q l' = q' l') -> anywhere q l = anywhere q' l.
Proof.
  intros E. induction l as [|x l IH]; cbn [anywhere]; rewrite E; [|rewrite IH]; reflexivity.
Qed.

Lemma anywhere_word_bytes (w s : string) :
  anywhere (window (word true w)) (bytes s) = contains_fold w s.
Proof.
  induction s as [|d s IH].
  - cbn [bytes list_ascii_of_string map anywhere contains_fold].
    rewrite <- window_word_bytes. reflexivity.
  - cbn [contains_fold]. rewrite <- IH, <- window_word_bytes. reflexivity.
Qed.

Lemma decode_loop_ascii (n : nat) (s : list N) :
  forallb (fun b => b <? 0x80) s = true -> (length s <= n)%nat -> decode_loop n s = s.
Proof.
  revert s. induction n as [|n IH]; intros s Hs Hn.
  - destruct s; [reflexivity | simpl in Hn; lia].
  - destruct s as [|b0 t]; [reflexivity|].
    cbn [forallb] in Hs. apply andb_true_iff in Hs as [Hb Ht].
    cbn [decode_loop DecodeRune]. rewrite Hb. change (drop 1 (b0 :: t)) with t.
    rewrite IH; [reflexivity | exact Ht | simpl in Hn; lia].
Qed.

(** An ASCII text decodes to its bytes. *)
Lemma decode_ascii (s : string) : is_ascii_text s = true -> decode s = bytes s.
Proof. intros H. apply decode_loop_ascii; [exact H | lia]. Qed.

Lemma eq_char_plain_high (c : ascii) :
  plain_letter c = true -> ascii_only (eq_char true c).
Proof.
  unfold plain_letter. intros [Hc Hp]%andb_true_iff x Hx. apply N.ltb_lt in Hc.
  assert (Hk : N_of_ascii c <> 107 /\ N_of_ascii c <> 75 /\
               N_of_ascii c <> 115 /\ N_of_ascii c <> 83).
  { repeat split; intros E; apply (f_equal ascii_of_N) in E;
      rewrite ascii_N_embedding in E; subst c; discriminate. }
  unfold eq_char, variants, orbit, is_upper, is_lower.
  repeat match goal with
         | |- context [?a <=? ?b] => destruct (N.leb_spec a b); cbn [andb]
         | |- context [?a =? ?b] => destruct (N.eqb_spec a b); cbn [orb existsb]
         end; try reflexivity; lia.
Qed.

Lemma word_plain (w : string) :
  forallb plain_letter (list_ascii_of_string w) = true ->
  Forall ascii_only (word true w).
Proof.
  unfold word. induction (list_ascii_of_string w) as [|c l IH]; intros H; [constructor|].
  cbn [forallb] in H. apply andb_true_iff in H as [Hc Hl].
  constructor; [apply eq_char_plain_high; exact Hc | apply IH; exact Hl].
Qed.

Lemma anywhere_existsb {A} (f : A -> list rune -> bool) (ws : list A) (l : list rune) :
  anywhere (fun l' => existsb (fun w => f w l') ws) l =
  existsb (fun w => anywhere (f w) l) ws.
Proof.
  induction l as [|x l IH]; cbn [anywhere].
  - induction ws as [|w ws IHw]; [reflexivity|]. cbn [existsb anywhere].
    rewrite orb_false_r in *. rewrite <- IHw, !orb_false_r. reflexivity.
  - rewrite IH. clear IH. induction ws as [|w ws IHw]; [reflexivity|].
    cbn [existsb anywhere]. rewrite <- IHw.
    destruct (f w (x :: l)), (anywhere (f w) l),
      (existsb (fun w0 => f w0 (x :: l)) ws); reflexivity.
Qed.

Lemma window_mono (ps ps' : list (rune -> bool)) (l : list rune) :
  Forall2 (fun p' p => forall x, p' x = true -> p x = true) ps' ps ->
  window ps' l = true -> window ps l = true.
Proof.
  intros H. revert l. induction H as [|p' p ps' ps Hp _ IH]; intros l; [reflexivity|].
  destruct l as [|x l]; [discriminate|]. cbn [window].
  intros [H1 H2]%andb_true_iff. rewrite (Hp x H1), (IH l H2). reflexivity.
Qed.

Lemma anywhere_mono (q' q : list rune -> bool) (l : list rune) :
  (forall l', q' l' = true -> q l' = true) -> anywhere q' l = true -> anywhere q l = true.
Proof.
  intros H. induction l as [|x l IH]; cbn [anywhere]; rewrite !orb_true_iff.
  - intros [H1|?]; [left; apply H; exact H1 | discriminate].
  - intros [H1|H1]; [left; apply H; exact H1 | right; apply IH; exact H1].
Qed.

Lemma restrict_mono (cs : list ascii) :
  Forall2 (fun p' p : rune -> bool => forall x, p' x = true -> p x = true)
          (map restrict cs) (map (eq_char true) cs).
Proof.
  induction cs as [|c cs IH]; [constructor|]. cbn [map]. constructor; [|exact IH].
  intros x [H _]%andb_true_iff. exact H.
Qed.

Lemma restrict_byte (c : ascii) (x : rune) :
  N_of_ascii c < 0x80 -> x < 256 -> eq_char true c x = true -> restrict c x = true.
Proof.
  intros Hc Hx H. unfold restrict. rewrite H. cbn [andb]. apply N.ltb_lt.
  unfold eq_char, variants, orbit, is_upper, is_lower in H.
  repeat match type of H with
         | context [?a <=? ?b] => destruct (N.leb_spec a b); cbn [andb] in H
         | context [?a =? ?b] => destruct (N.eqb_spec a b); cbn [orb existsb] in H
         end; try discriminate; lia.
Qed.

Lemma window_restrict (cs : list ascii) (l : list rune) :
  forallb (fun c => N_of_ascii c <? 0x80) cs = true -> Forall (fun x => x < 256) l ->
  window (map (eq_char true) cs) l = true -> window (map restrict cs) l = true.
Proof.
  revert l. induction cs as [|c cs IH]; intros l Hcs Hl; [reflexivity|].
  cbn [forallb] in Hcs. apply andb_true_iff in Hcs as [Hc Hcs]. apply N.ltb_lt in Hc.
  destruct l as [|x l]; [discriminate|]. apply Forall_cons in Hl as [Hx Hl].
  cbn [map window]. intros [H1 H2]%andb_true_iff.
  rewrite (restrict_byte c x Hc Hx H1), (IH l Hcs Hl H2). reflexivity.
Qed.

Lemma anywhere_restrict (cs : list ascii) (l : list rune) :
  forallb (fun c => N_of_ascii c <? 0x80) cs = true -> Forall (fun x => x < 256) l ->
  anywhere (window (map (eq_char true) cs)) l = true ->
  anywhere (window (map restrict cs)) l = true.
Proof.
  intros Hcs. induction l as [|x l IH]; intros Hl; cbn [anywhere]; rewrite !orb_true_iff.
  - intros [H|?]; [|discriminate]. left. apply window_restrict; assumption.
  - intros [H|H]; [left; apply window_restrict; assumption|].
    right. apply Forall_cons in Hl as [_ Hl]. apply IH; assumption.
Qed.

Lemma bytes_bounded (s : string) : Forall (fun x => x < 256) (bytes s).
Proof.
  unfold bytes. induction (list_ascii_of_string s) as [|c l IH]; constructor;
    [apply N_ascii_bounded | exact IH].
Qed.

(** A word of ASCII letters that occurs in the bytes occurs in the decoded
    text. *)
Lemma contains_decode (w s : string) :
  w <> EmptyString ->
  forallb (fun c => N_of_ascii c <? 0x80) (list_ascii_of_string w) = true ->
  contains_fold w s = true -> anywhere (window (word true w)) (decode s) = true.
Proof.
  intros Hne Hw Hs.
  apply (anywhere_mono (window (map restrict (list_ascii_of_string w)))).
  { intros l'. apply window_mono. apply restrict_mono. }
  rewrite anywhere_decode.
  - apply anywhere_restrict; [exact Hw | apply bytes_bounded|].
    rewrite <- anywhere_word_bytes in Hs. exact Hs.
  - destruct w; [congruence | discriminate].
  - apply Forall_forall. intros p Hp. apply list_elem_of_In in Hp.
    apply in_map_iff in Hp as (c & <- & _). intros x Hx. unfold restrict.
    destruct (N.ltb_spec x 0x80); [lia|]. apply andb_false_r.
Qed.

Section Vocabularies.

Variable unicode : string -> rune -> bool.

Lemma lit_here (fold : bool) (w : string) (at0 : bool) (l : list rune) :
  w <> EmptyString ->
  m unicode fold (lit w) accept at0 l = window (word fold w) l.
Proof.
  revert at0 l. induction w as [|c w IH]; intros at0 l Hne; [congruence|].
  destruct w as [|c' w].
  - destruct l as [|x l]; [reflexivity|]. cbn. destruct (eq_char fold c x); reflexivity.
  - change (lit (String c (String c' w))) with (Cat (Chr c) (lit (String c' w))).
    cbn [m]. unfold one. destruct l as [|x l]; [reflexivity|].
    rewrite IH by discriminate. reflexivity.
Qed.

Lemma alt_here (fold : bool) (rs : list regex) (k : cont_t) (at0 : bool) (l : list rune) :
  rs <> [] ->
  m unicode fold (alt rs) k at0 l = existsb (fun r => m unicode fold r k at0 l) rs.
Proof.
  induction rs as [|r rs IH]; intros Hne; [congruence|].
  destruct rs as [|r' rs].
  - cbn. rewrite orb_false_r. reflexivity.
  - change (alt (r :: r' :: rs)) with (Alt r (alt (r' :: rs))).
    cbn [m existsb]. rewrite IH by discriminate. reflexivity.
Qed.

(** A keyword pattern looks for one of its keywords at the position. *)
Lemma vocab_here (kws : list string) (at0 : bool) (l : list rune) :
  kws <> [] -> Forall (fun w => w <> EmptyString) kws ->
  m unicode false (Fold (alt (map lit kws))) accept at0 l =
  existsb (fun w => window (word true w) l) kws.
Proof.
  intros Hne Hall. cbn [m]. rewrite alt_here by (destruct kws; [congruence | discriminate]).
  clear Hne. induction Hall as [|w kws Hw _ IH]; [reflexivity|].
  cbn [map existsb]. rewrite lit_here by exact Hw. rewrite IH. reflexivity.
Qed.

Lemma vocab_decoded (kws : list string) (s : string) :
  kws <> [] -> Forall (fun w => w <> EmptyString) kws ->
  MatchString unicode (Fold (alt (map lit kws))) s =
  existsb (fun w => anywhere (window (word true w)) (decode s)) kws.
Proof.
  intros Hne Hall. unfold MatchString.
  rewrite (search_anywhere unicode _ _ (fun a l => vocab_here kws a l Hne Hall)).
  apply anywhere_existsb.
Qed.

Lemma vocabularies_shape (r : regex) (kws : list string) :
  In (r, kws) vocabularies ->
  r = Fold (alt (map lit kws)) /\ kws <> [] /\
  Forall (fun w => w <> EmptyString) kws /\
  Forall (fun w => forallb (fun c => N_of_ascii c <? 0x80) (list_ascii_of_string w) = true)
         kws.
Proof.
  unfold vocabularies. cbn [In].
  intros [[= <- <-]|[[= <- <-]|[[= <- <-]|[[= <- <-]|[[= <- <-]|[]]]]]];
    (split; [reflexivity|]); (split; [discriminate|]);
    split; repeat constructor; discriminate.
Qed.

(** X4: the keyword patterns [CellAlign], [CellVerticalAlign], [Direction],
    [ImageAlign] and [ListType] have no anchors: a text that contains one of
    the keywords of the pattern, in any letter case and with anything
    around it, is accepted. *)
Theorem keyword_anywhere_accepted (r : regex) (kws : list string) (w s : string) :
  In (r, kws) vocabularies -> In w kws -> contains_fold w s = true ->
  MatchString unicode r s = true.
Proof.
  intros Hr Hw Hs. apply vocabularies_shape in Hr as (-> & Hne & Hall & Hascii).
  rewrite vocab_decoded by assumption. apply existsb_exists. exists w. split; [exact Hw|].
  apply list_elem_of_In in Hw.
  apply contains_decode; [| |exact Hs].
  - exact (proj1 (Forall_forall _ _) Hall w Hw).
  - exact (proj1 (Forall_forall _ _) Hascii w Hw).
Qed.

(** X5: on a text of ASCII bytes, a keyword pattern accepts exactly the
    texts that contain one of its keywords, letter case apart. *)
Theorem keyword_pattern_on_ascii (r : regex) (kws : list string) (s : string) :
  In (r, kws) vocabularies -> is_ascii_text s = true ->
  MatchString unicode r s = existsb (fun w => contains_fold w s) kws.
Proof.
  intros Hr Hs. apply vocabularies_shape in Hr as (-> & Hne & Hall & _).
  rewrite vocab_decoded by assumption. rewrite (decode_ascii s Hs).
  clear. induction kws as [|w kws IH]; [reflexivity|].
  cbn [existsb]. rewrite anywhere_word_bytes, IH. reflexivity.
Qed.

Lemma plain_word_decoded (w s : string) :
  w <> EmptyString -> forallb plain_letter (list_ascii_of_string w) = true ->
  anywhere (window (word true w)) (decode s) = contains_fold w s.
Proof.
  intros Hne Hp. rewrite anywhere_decode.
  - apply anywhere_word_bytes.
  - destruct w; [congruence | discriminate].
  - apply word_plain. exact Hp.
Qed.

(** X6: [Direction] accepts exactly the texts that contain [rtl] or [ltr],
    letter case apart. *)
Theorem Direction_accepts_iff (s : string) :
  MatchString unicode Direction s = contains_fold "rtl" s || contains_fold "ltr" s.
Proof.
  change Direction with (Fold (alt (map lit ["rtl"; "ltr"]))).
  rewrite vocab_decoded by (try discriminate; repeat constructor; discriminate).
  cbn [existsb]. rewrite !plain_word_decoded by (discriminate || reflexivity).
  rewrite orb_false_r. reflexivity.
Qed.

End Vocabularies.

Section MorePatterns.

Variable unicode : string -> rune -> bool.

Lemma lit_total (fold : bool) (w : string) (k : cont_t) (at0 : bool) (l : list rune) :
  w <> EmptyString -> (forall a s, k a s = true) ->
  m unicode fold (lit w) k at0 l = window (word fold w) l.
Proof.
  intros Hne Hk. revert at0 l. induction w as [|c w IH]; intros at0 l; [congruence|].
  destruct w as [|c' w].
  - destruct l as [|x l]; [reflexivity|]. cbn. rewrite Hk.
    destruct (eq_char fold c x); reflexivity.
  - change (lit (String c (String c' w))) with (Cat (Chr c) (lit (String c' w))).
    cbn [m]. unfold one. destruct l as [|x l]; [reflexivity|].
    rewrite IH by discriminate. reflexivity.
Qed.

Lemma CellScope_here (at0 : bool) (l : list rune) :
  m unicode false CellScope accept at0 l =
  existsb (fun w => window (word true w) l) ["row"; "col"].
Proof.
  unfold CellScope, cat, alt. cbn [m existsb].
  rewrite !lit_total by (discriminate || (intros; apply orb_true_r)).
  rewrite orb_false_r. reflexivity.
Qed.

(** X7: the pattern of [scope] in [AllowTables] accepts exactly the texts
    that contain [row] or [col], letter case apart; its optional [group]
    changes no verdict. *)
Theorem CellScope_accepts_iff (s : string) :
  MatchString unicode CellScope s = contains_fold "row" s || contains_fold "col" s.
Proof.
  unfold MatchString. rewrite (search_anywhere unicode _ _ CellScope_here).
  rewrite anywhere_existsb. cbn [existsb].
  rewrite !plain_word_decoded by (discriminate || reflexivity).
  rewrite orb_false_r. reflexivity.
Qed.

Lemma Lang_here (at0 : bool) (l : list rune) :
  m unicode false Lang accept at0 l =
  window [in_class unicode false false [IRange "a" "z"; IRange "A" "Z"];
          in_class unicode false false [IRange "a" "z"; IRange "A" "Z"]] l.
Proof.
  unfold Lang. cbn [m times]. unfold one.
  destruct l as [|x [|y l]]; try reflexivity;
    cbn [window]; rewrite ?andb_false_r, ?upto_accept; reflexivity.
Qed.

Lemma letter_class (c : ascii) :
  in_class unicode false false [IRange "a" "z"; IRange "A" "Z"] (N_of_ascii c) = is_alpha c.
Proof. destruct c as [[] [] [] [] [] [] [] []]; reflexivity. Qed.

Lemma adjacent_bytes (s : string) :
  anywhere
    (window [in_class unicode false false [IRange "a" "z"; IRange "A" "Z"];
             in_class unicode false false [IRange "a" "z"; IRange "A" "Z"]])
    (bytes s) = adjacent_letters s.
Proof.
  induction s as [|c1 s IH]; [reflexivity|].
  change (bytes (String c1 s)) with (N_of_ascii c1 :: bytes s).
  cbn [anywhere]. rewrite IH. destruct s as [|c2 s].
  - cbn. rewrite andb_false_r. reflexivity.
  - change (bytes (String c2 s)) with (N_of_ascii c2 :: bytes s).
    cbn [window adjacent_letters]. rewrite !letter_class, andb_true_r. reflexivity.
Qed.

(** X8: the pattern of [lang] in [AllowStandardAttributes] accepts exactly
    the texts with two ASCII letters next to each other; the bound of 20
    letters and the rest of the text change no verdict. *)
Theorem Lang_accepts_iff (s : string) :
  MatchString unicode Lang s = adjacent_letters s.
Proof.
  unfold MatchString. rewrite (search_anywhere unicode _ _ Lang_here).
  rewrite anywhere_decode.
  - apply adjacent_bytes.
  - discriminate.
  - repeat constructor; apply in_class_high; reflexivity.
Qed.

End MorePatterns.

(** ** [ListType] *)

Lemma eq_char_plain (c : ascii) (y : rune) :
  plain_letter c = true ->
  eq_char true c y = (lowerN y =? lowerN (N_of_ascii c)).
Proof.
  unfold plain_letter. intros [Hc Hp]%andb_true_iff. apply N.ltb_lt in Hc.
  assert (Hk : N_of_ascii c <> 107 /\ N_of_ascii c <> 75 /\
               N_of_ascii c <> 115 /\ N_of_ascii c <> 83).
  { repeat split; intros E; apply (f_equal ascii_of_N) in E;
      rewrite ascii_N_embedding in E; subst c; discriminate. }
  unfold eq_char, variants, orbit, lowerN, is_upper, is_lower.
  repeat match goal with
         | |- context [?a <=? ?b] => destruct (N.leb_spec a b); cbn [andb]
         end;
    repeat match goal with
           | |- context [?a =? ?b] => destruct (N.eqb_spec a b); cbn [orb existsb]
           end; try reflexivity; lia.
Qed.

Lemma window_head (p : rune -> bool) (ps : list (rune -> bool)) (l : list rune) :
  window (p :: ps) l = true ->
  exists x l', l = x :: l' /\ p x = true /\ window ps l' = true.
Proof.
  destruct l as [|x l']; [discriminate|]. cbn [window].
  intros [H1 H2]%andb_true_iff. eauto.
Qed.

Lemma existsb_later {A} (p : A -> bool) (pre : list A) (y : A) (l : list A) :
  p y = true -> existsb p (pre ++ y :: l) = true.
Proof.
  intros H. rewrite existsb_app. cbn [existsb]. rewrite H, orb_true_r. reflexivity.
Qed.

Section ListTypeFacts.

Variable unicode : string -> rune -> bool.

Lemma lowerN_digit (x : rune) : (lowerN x =? 49) = true -> (x =? 49) = true.
Proof.
  unfold lowerN, is_upper.
  destruct (N.leb_spec 65 x) as [H1|H1], (N.leb_spec x 90) as [H2|H2]; cbn [andb];
    intros H; try exact H.
  apply N.eqb_eq in H. lia.
Qed.

Lemma list_type_head (x : rune) (l : list rune) :
  list_type_rune x = true -> list_type_here (x :: l) = true.
Proof.
  unfold list_type_rune, list_type_here. intros H. apply existsb_exists.
  apply orb_true_iff in H as [H|H]; [apply orb_true_iff in H as [H|H]|].
  - exists "a"%string. split; [cbn; tauto|].
    cbn [word list_ascii_of_string map window].
    rewrite eq_char_plain, andb_true_r by reflexivity. exact H.
  - exists "i"%string. split; [cbn; tauto|].
    cbn [word list_ascii_of_string map window].
    rewrite eq_char_plain, andb_true_r by reflexivity. exact H.
  - exists "1"%string. split; [cbn; tauto|].
    apply N.eqb_eq in H. subst x. reflexivity.
Qed.

Lemma single_letter (c : ascii) (x : rune) (l : list rune) :
  plain_letter c = true -> window (word true (String c "")) (x :: l) = true ->
  (lowerN x =? lowerN (N_of_ascii c)) = true.
Proof.
  intros Hc. cbn [word list_ascii_of_string map window].
  rewrite eq_char_plain, andb_true_r by exact Hc. trivial.
Qed.

Lemma list_type_inv (x : rune) (l : list rune) :
  list_type_here (x :: l) = true ->
  list_type_rune x = true \/ existsb list_type_rune l = true.
Proof.
  unfold list_type_here.
  assert (Hi : forall y, eq_char true "i" y = true -> list_type_rune y = true).
  { intros y. rewrite eq_char_plain by reflexivity. unfold list_type_rune.
    change (lowerN (N_of_ascii "i")) with 105. intros ->. rewrite orb_true_r. reflexivity. }
  assert (Ha : forall y, eq_char true "a" y = true -> list_type_rune y = true).
  { intros y. rewrite eq_char_plain by reflexivity. unfold list_type_rune.
    change (lowerN (N_of_ascii "a")) with 97. intros ->. reflexivity. }
  intros H. apply existsb_exists in H as (w & Hw & H). cbn [In] in Hw.
  destruct Hw as [<-|[<-|[<-|[<-|[<-|[<-|[<-|[<-|[]]]]]]]]].
  - right. apply window_head in H as (? & ? & [= <- <-] & _ & H).
    apply window_head in H as (y & l' & -> & Hy & _).
    apply (existsb_later list_type_rune []). apply Hi. exact Hy.
  - right. apply window_head in H as (? & ? & [= <- <-] & _ & H).
    apply window_head in H as (y & l' & -> & Hy & _).
    apply (existsb_later list_type_rune []). apply Hi. exact Hy.
  - right. apply window_head in H as (? & ? & [= <- <-] & _ & H).
    apply window_head in H as (y1 & l1 & -> & _ & H).
    apply window_head in H as (y2 & l2 & -> & _ & H).
    apply window_head in H as (y3 & l3 & -> & Hy & _).
    apply (existsb_later list_type_rune [y1; y2]). apply Ha. exact Hy.
  - left. apply single_letter in H; [|reflexivity]. unfold list_type_rune.
    change (lowerN (N_of_ascii "a")) with 97 in H. rewrite H. reflexivity.
  - left. apply single_letter in H; [|reflexivity]. unfold list_type_rune.
    change (lowerN (N_of_ascii "A")) with 97 in H. rewrite H. reflexivity.
  - left. apply single_letter in H; [|reflexivity]. unfold list_type_rune.
    change (lowerN (N_of_ascii "i")) with 105 in H. rewrite H, orb_true_r. reflexivity.
  - left. apply single_letter in H; [|reflexivity]. unfold list_type_rune.
    change (lowerN (N_of_ascii "I")) with 105 in H. rewrite H, orb_true_r. reflexivity.
  - left. apply single_letter in H; [|reflexivity]. unfold list_type_rune.
    change (lowerN (N_of_ascii "1")) with 49 in H. apply lowerN_digit in H.
    rewrite H, orb_true_r. reflexivity.
Qed.

Lemma list_type_anywhere (l : list rune) :
  anywhere list_type_here l = existsb list_type_rune l.
Proof.
  apply eq_true_iff_eq. induction l as [|x l IH].
  - cbn. split; discriminate.
  - cbn [anywhere existsb]. rewrite !orb_true_iff, IH. split.
    + intros [H|H]; [apply list_type_inv in H; exact H | right; exact H].
    + intros [H|H]; [left; apply list_type_head; exact H | right; exact H].
Qed.

Lemma list_type_rune_high : ascii_only list_type_rune.
Proof.
  intros x Hx. unfold list_type_rune, lowerN, is_upper.
  destruct (N.leb_spec 65 x), (N.leb_spec x 90); cbn [andb]; try lia;
    repeat match goal with
           | |- context [?a =? ?b] => destruct (N.eqb_spec a b); [lia|]
           end; reflexivity.
Qed.

(** X9: [ListType] accepts exactly the texts that have one of the
    characters [a], [A], [i], [I] or [1]: its one-letter alternatives match
    inside any text, and each longer keyword has such a letter. *)
Theorem ListType_accepts_iff (s : string) :
  MatchString unicode ListType s = true <->
  exists c, In c (list_ascii_of_string s) /\ is_list_type_char c = true.
Proof.
  unfold MatchString.
  rewrite (search_anywhere unicode ListType list_type_here).
  - rewrite list_type_anywhere, <- anywhere_one.
    rewrite anywhere_decode;
      [|discriminate | repeat constructor; apply list_type_rune_high].
    rewrite anywhere_one. apply exists_char_iff.
    intros c. destruct c as [[] [] [] [] [] [] [] []]; reflexivity.
  - intros at0 l.
    apply (vocab_here unicode ["circle"; "disc"; "square"; "a"; "A"; "i"; "I"; "1"]);
      [discriminate | repeat constructor; discriminate].
Qed.

End ListTypeFacts.

(** ** [Number] *)

Lemma decode_loop_high (n : nat) (s : list N) :
  (length s <= n)%nat ->
  forallb (fun b => b <? 0x80) (decode_loop n s) = forallb (fun b => b <? 0x80) s.
Proof.
  revert s. induction n as [|n IH]; intros s Hn.
  - destruct s; [reflexivity | simpl in Hn; lia].
  - destruct s as [|b0 t]; [reflexivity|].
    cbn [decode_loop]. destruct (DecodeRune (b0 :: t)) as [r w] eqn:E.
    cbn [forallb]. apply DecodeRune_cases in E as [(Hlt & -> & ->)|(Hb & Hr & Hw & _)].
    + change (drop 1 (b0 :: t)) with t. rewrite IH by (simpl in Hn; lia). reflexivity.
    + destruct (N.ltb_spec r 0x80); [lia|]. destruct (N.ltb_spec b0 0x80); [lia|].
      reflexivity.
Qed.

Lemma bodyR_seen (l : list rune) :
  bodyR l true = forallb (in_perl Pd) l || bodyR l false.
Proof.
  induction l as [|x t IH]; [reflexivity|]. cbn [bodyR forallb].
  destruct (in_perl Pd x); cbn [andb orb]; [|reflexivity].
  rewrite IH. destruct (forallb (in_perl Pd) t); reflexivity.
Qed.

Lemma bodyR_ascii (l : list rune) (seen : bool) :
  bodyR l seen = true -> forallb (fun b => b <? 0x80) l = true.
Proof.
  assert (Hd : forall x, in_perl Pd x = true -> (x <? 0x80) = true).
  { intros x Hx. destruct (N.ltb_spec x 0x80); [reflexivity|].
    rewrite in_perl_high in Hx by assumption. discriminate. }
  assert (Hall : forall t, forallb (in_perl Pd) t = true ->
                           forallb (fun b => b <? 0x80) t = true).
  { induction t as [|y t IHt]; [reflexivity|]. cbn [forallb].
    intros [H1 H2]%andb_true_iff. rewrite (Hd y H1), (IHt H2). reflexivity. }
  revert seen. induction l as [|x t IH]; intros seen; [reflexivity|].
  cbn [bodyR forallb]. destruct (in_perl Pd x) eqn:Ex.
  - intros H. rewrite (Hd x Ex), (IH _ H). reflexivity.
  - destruct (N.eqb_spec x 46) as [->|]; [|discriminate].
    intros H. cbn [andb]. apply Hall. destruct t; [discriminate | exact H].
Qed.

Lemma numberR_ascii (l : list rune) :
  numberR l = true -> forallb (fun b => b <? 0x80) l = true.
Proof.
  destruct l as [|x t]; [reflexivity|]. unfold numberR.
  destruct ((x =? 45) || (x =? 43)) eqn:E.
  - intros H. cbn [forallb]. rewrite (bodyR_ascii t false H), andb_true_r.
    apply N.ltb_lt.
    apply orb_true_iff in E as [E|E]; apply N.eqb_eq in E; subst x; lia.
  - apply bodyR_ascii.
Qed.

Lemma numberR_decode (s : string) : numberR (decode s) = numberR (bytes s).
Proof.
  destruct (is_ascii_text s) eqn:E; [rewrite (decode_ascii s E); reflexivity|].
  assert (E' : forallb (fun b => b <? 0x80) (decode s) = false).
  { unfold decode. rewrite decode_loop_high by lia. exact E. }
  destruct (numberR (decode s)) eqn:H1;
    [apply numberR_ascii in H1; rewrite H1 in E'; discriminate|].
  destruct (numberR (bytes s)) eqn:H2; [|reflexivity].
  apply numberR_ascii in H2. unfold is_ascii_text in E. rewrite H2 in E. discriminate.
Qed.

Lemma numberR_bytes (s : string) : numberR (bytes s) = is_number s.
Proof.
  assert (Hall : forall t, forallb (in_perl Pd) (bytes t) = all_digits t).
  { induction t as [|c t IHt]; [reflexivity|].
    change (bytes (String c t)) with (N_of_ascii c :: bytes t).
    cbn [forallb all_digits]. rewrite IHt. reflexivity. }
  assert (Htail : forall t, tailR (bytes t) = nonempty t && all_digits t).
  { intros [|c t]; [reflexivity|]. rewrite <- Hall. reflexivity. }
  assert (Hdot : forall c, (N_of_ascii c =? 46) = Ascii.eqb c ".").
  { intros c. destruct c as [[] [] [] [] [] [] [] []]; reflexivity. }
  assert (Hbody : forall t seen, bodyR (bytes t) seen = number_body t seen).
  { induction t as [|c t IHt]; intros seen; [reflexivity|].
    change (bytes (String c t)) with (N_of_ascii c :: bytes t).
    cbn [bodyR number_body]. unfold is_digit. rewrite IHt, Hdot, Htail. reflexivity. }
  destruct s as [|c s]; [reflexivity|].
  change (bytes (String c s)) with (N_of_ascii c :: bytes s).
  unfold numberR, is_number. rewrite Hbody.
  change (N_of_ascii c :: bytes s) with (bytes (String c s)). rewrite Hbody.
  replace ((N_of_ascii c =? 45) || (N_of_ascii c =? 43))
    with (existsb (Ascii.eqb c) (list_ascii_of_string "-+")); [reflexivity|].
  destruct c as [[] [] [] [] [] [] [] []]; reflexivity.
Qed.

Section NumberFacts.

Variable unicode : string -> rune -> bool.

Lemma digit_class (x : rune) :
  in_class unicode false false [IRange "0" "9"] x = in_perl Pd x.
Proof.
  unfold in_class, variants. cbn [existsb in_item in_perl xorb].
  rewrite !orb_false_r. reflexivity.
Qed.

Lemma digits_to_end (n : nat) (at0 : bool) (s : list rune) :
  (length s <= n)%nat ->
  star (m unicode false digit) (m unicode false Eol accept) n at0 s =
  forallb (in_perl Pd) s.
Proof.
  revert at0 s. induction n as [|n IH]; intros at0 s Hn.
  - destruct s; [reflexivity | simpl in Hn; lia].
  - destruct s as [|x t]; [reflexivity|].
    cbn [star m forallb]. unfold digit at 1. cbn [m]. unfold one.
    rewrite digit_class, IH by (simpl in Hn; lia).
    replace (length t <? length (x :: t))%nat with true
      by (symmetry; apply Nat.ltb_lt; simpl; lia).
    reflexivity.
Qed.

Lemma Number_tail (at0 : bool) (s : list rune) :
  m unicode false (Cat (Plus digit) Eol) accept at0 s = tailR s.
Proof.
  cbn [m]. unfold digit at 1. cbn [m]. unfold one.
  destruct s as [|x t]; [reflexivity|].
  rewrite digit_class, digits_to_end by lia. reflexivity.
Qed.

Lemma Number_point (at0 : bool) (s : list rune) :
  m unicode false (Cat (Quest (Esc ".")) (Cat (Plus digit) Eol)) accept at0 s =
  match s with
  | x :: t => (x =? 46) && tailR t
  | [] => false
  end || tailR s.
Proof.
  change (m unicode false (Cat (Quest (Esc ".")) (Cat (Plus digit) Eol)) accept at0 s)
    with (one (eq_char false ".")
              (m unicode false (Cat (Plus digit) Eol) accept) at0 s ||
          m unicode false (Cat (Plus digit) Eol) accept at0 s).
  rewrite Number_tail. unfold one. destruct s as [|x t]; [reflexivity|].
  rewrite Number_tail. unfold eq_char, variants. cbn [existsb].
  change (N_of_ascii ".") with 46. rewrite orb_false_r, (N.eqb_sym 46 x). reflexivity.
Qed.

Lemma not_point (x : rune) : in_perl Pd x = true -> (x =? 46) = false.
Proof.
  intros [H _]%andb_true_iff. apply N.leb_le in H. apply N.eqb_neq. lia.
Qed.

Lemma Number_body (n : nat) (at0 : bool) (s : list rune) :
  (length s <= n)%nat ->
  star (m unicode false digit)
       (m unicode false (Cat (Quest (Esc ".")) (Cat (Plus digit) Eol)) accept) n at0 s =
  bodyR s false.
Proof.
  revert at0 s. induction n as [|n IH]; intros at0 s Hn.
  - destruct s; [|simpl in Hn; lia]. cbn [star]. rewrite Number_point. reflexivity.
  - cbn [star]. rewrite Number_point. destruct s as [|x t].
    + reflexivity.
    + unfold digit at 1. cbn [m]. unfold one.
      rewrite digit_class, IH by (simpl in Hn; lia).
      replace (length t <? length (x :: t))%nat with true
        by (symmetry; apply Nat.ltb_lt; simpl; lia).
      cbn [bodyR tailR forallb andb]. destruct (in_perl Pd x) eqn:Ex; cbn [andb orb].
      * rewrite (not_point x Ex), bodyR_seen. reflexivity.
      * rewrite !orb_false_r. destruct (x =? 46); reflexivity.
Qed.

Lemma Number_rest (at0 : bool) (s : list rune) :
  m unicode false
    (Cat (Star digit) (Cat (Quest (Esc ".")) (Cat (Plus digit) Eol))) accept at0 s =
  bodyR s false.
Proof. apply (Number_body (length s)). lia. Qed.

Lemma Number_here (at0 : bool) (l : list rune) :
  m unicode false Number accept at0 l = at0 && numberR l.
Proof.
  change (m unicode false Number accept at0 l)
    with (at0 &&
          (one (in_class unicode false false [IChr "-"; IChr "+"])
               (m unicode false
                  (Cat (Star digit) (Cat (Quest (Esc ".")) (Cat (Plus digit) Eol)))
                  accept) at0 l ||
           m unicode false
             (Cat (Star digit) (Cat (Quest (Esc ".")) (Cat (Plus digit) Eol)))
             accept at0 l)).
  f_equal. rewrite Number_rest. unfold one.
  destruct l as [|x t]; [reflexivity|]. rewrite Number_rest.
  assert (Hs : in_class unicode false false [IChr "-"; IChr "+"] x =
               (x =? 45) || (x =? 43)).
  { unfold in_class, variants. cbn [existsb in_item xorb].
    change (N_of_ascii "-") with 45. change (N_of_ascii "+") with 43.
    rewrite !orb_false_r. reflexivity. }
  rewrite Hs. unfold numberR.
  destruct ((x =? 45) || (x =? 43)) eqn:E; cbn [andb orb]; [|reflexivity].
  cbn [bodyR].
  assert (Hd : in_perl Pd x = false /\ (x =? 46) = false).
  { apply orb_true_iff in E as [E|E]; apply N.eqb_eq in E; subst x; split; reflexivity. }
  destruct Hd as [-> ->]. rewrite orb_false_r. reflexivity.
Qed.

Lemma Number_not_later (l : list rune) : search unicode Number false l = false.
Proof.
  induction l as [|x l IH]; cbn [search]; rewrite Number_here; [reflexivity | exact IH].
Qed.

(** X10: [Number], anchored at both ends, accepts exactly the texts that are
    an optional sign, digits, an optional point and at least one digit: [12],
    [1.5], [.5], [-3]; a text with anything before or after, a lone sign or
    a trailing point is rejected. *)
Theorem Number_accepts_iff (s : string) :
  MatchString unicode Number s = is_number s.
Proof.
  unfold MatchString.
  assert (H : forall l, search unicode Number true l = numberR l).
  { intros [|x l]; cbn [search]; rewrite Number_here; cbn [andb];
      [apply orb_false_r | rewrite Number_not_later; apply orb_false_r]. }
  rewrite H, numberR_decode. apply numberR_bytes.
Qed.

End NumberFacts.

(** ** What the composite helpers admit *)

Lemma size_union (n o : gmap string (option regex)) :
  negb (Nat.eqb (size (n ∪ o)) 0) =
  negb (Nat.eqb (size n) 0) || negb (Nat.eqb (size o) 0).
Proof.
  destruct (decide (n = ∅)) as [->|Hn].
  - rewrite (left_id_L ∅ (∪)), map_size_empty. reflexivity.
  - assert (H1 : size n <> 0%nat) by (intros H; apply Hn, map_size_empty_iff, H).
    assert (H2 : size (n ∪ o) <> 0%nat).
    { intros H. apply map_size_empty_iff in H. apply map_choose in Hn as (i & x & Hi).
      apply (lookup_union_Some_l _ o) in Hi. rewrite H, lookup_empty in Hi. discriminate. }
    apply Nat.eqb_neq in H1, H2. rewrite H1, H2. reflexivity.
Qed.

Lemma admissible_patch (d : Delta) (p : Policy) (e : string) :
  isElementAdmissible (patch d p) e = isElementAdmissible p e || admits d e.
Proof.
  unfold isElementAdmissible, admits. cbn [elements elementAttributes patch].
  rewrite mergeRules_lookup.
  assert (E : bool_decide (e ∈ dElements d ∪ elements p) =
              bool_decide (e ∈ dElements d) || bool_decide (e ∈ elements p)).
  { destruct (decide (e ∈ dElements d)) as [H|H], (decide (e ∈ elements p)) as [H'|H'];
      rewrite ?(bool_decide_eq_true_2 _ H), ?(bool_decide_eq_false_2 _ H),
        ?(bool_decide_eq_true_2 _ H'), ?(bool_decide_eq_false_2 _ H'); cbn [orb];
      [apply bool_decide_eq_true_2 | apply bool_decide_eq_true_2
      | apply bool_decide_eq_true_2 | apply bool_decide_eq_false_2];
      rewrite elem_of_union; tauto. }
  rewrite E.
  destruct (dRules d !! e) as [n|], (elementAttributes p !! e) as [o|];
    rewrite ?size_union;
    repeat match goal with |- context [bool_decide ?P] => destruct (bool_decide P) end;
    repeat match goal with |- context [negb ?b] => destruct (negb b) end; reflexivity.
Qed.

Lemma admits_names (d : Delta) (names : list string) (e : string) :
  forallb (fun er => negb (Nat.eqb (size (snd er)) 0)) (map_to_list (dRules d)) = true ->
  dElements d ∪ dom (dRules d) = list_to_set names ->
  admits d e = bool_decide (e ∈ names).
Proof.
  intros Hall Hdom. unfold admits.
  assert (Hne : forall rules, dRules d !! e = Some rules -> size rules <> 0%nat).
  { intros rules E. apply elem_of_map_to_list, list_elem_of_In in E.
    apply (proj1 (forallb_forall _ _) Hall) in E. cbn in E.
    apply negb_true_iff, Nat.eqb_neq in E. exact E. }
  assert (Hin : e ∈ names <-> e ∈ dElements d \/ is_Some (dRules d !! e)).
  { rewrite <- (elem_of_list_to_set (C := gset string)), <- Hdom, elem_of_union,
      elem_of_dom. reflexivity. }
  destruct (dRules d !! e) as [rules|] eqn:E.
  - rewrite (bool_decide_eq_true_2 (e ∈ names)) by (apply Hin; right; eauto).
    assert (E' := Hne rules eq_refl). apply Nat.eqb_neq in E'. rewrite E'.
    apply orb_true_r.
  - rewrite orb_false_r. apply bool_decide_ext. rewrite Hin. split; [tauto|].
    intros [H|[? H]]; [exact H | discriminate].
Qed.

(** X11: each composite helper makes admissible the elements its body names
    and no other: the ten table elements for [AllowTables], the six list
    elements for [AllowLists], [img] for [AllowImages], none for
    [AllowStandardAttributes] and [AllowStandardURLs]; what was admissible
    stays admissible. *)
Theorem composites_admit (p : Policy) (e : string) :
  isElementAdmissible (AllowTables p) e =
    isElementAdmissible p e || bool_decide (e ∈ tableElements) /\
  isElementAdmissible (AllowLists p) e =
    isElementAdmissible p e || bool_decide (e ∈ listElements) /\
  isElementAdmissible (AllowImages p) e =
    isElementAdmissible p e || bool_decide (e ∈ ["img"]) /\
  isElementAdmissible (AllowStandardAttributes p) e = isElementAdmissible p e /\
  isElementAdmissible (AllowStandardURLs p) e = isElementAdmissible p e.
Proof.
  split; [|split; [|split; [|split]]].
  - rewrite (call_patch CAllowTables p : AllowTables p = _), admissible_patch. f_equal.
    apply admits_names; vm_compute; reflexivity.
  - rewrite (call_patch CAllowLists p : AllowLists p = _), admissible_patch. f_equal.
    apply admits_names; vm_compute; reflexivity.
  - rewrite (call_patch CAllowImages p : AllowImages p = _), admissible_patch. f_equal.
    apply admits_names; vm_compute; reflexivity.
  - reflexivity.
  - reflexivity.
Qed.

(** ** The rules the composite helpers bind *)

Lemma ruleOf_setRule (e a e' a' : string) (r : option regex)
  (M : gmap string (gmap string (option regex))) :
  setRule e a r M !! e' ≫= (fun rules => rules !! a') =
  if String.eqb e e' && String.eqb a a' then Some r
  else M !! e' ≫= (fun rules => rules !! a').
Proof.
  unfold setRule. destruct (String.eqb_spec e e') as [<-|He]; cbn [andb].
  - rewrite lookup_insert_eq. cbn. destruct (String.eqb_spec a a') as [<-|Ha].
    + apply lookup_insert_eq.
    + rewrite lookup_insert_ne by exact Ha. destruct (M !! e); [reflexivity|].
      cbn. apply lookup_empty.
  - rewrite lookup_insert_ne by exact He. reflexivity.
Qed.

Lemma lookup_matrix (mx : matrix) (e a : string) :
  rulesOfMatrix mx !! e ≫= (fun rules => rules !! a) = lookupRule e a mx.
Proof.
  induction mx as [|[[e' a'] r] mx IH]; [cbn; rewrite lookup_empty; reflexivity|].
  cbn [rulesOfMatrix foldr lookupRule fst snd]. rewrite ruleOf_setRule.
  destruct (String.eqb e' e && String.eqb a' a); [reflexivity | exact IH].
Qed.

Lemma resolve_patch (d : Delta) (p : Policy) (e a : string) :
  dGlobal d = ∅ ->
  resolve (patch d p) e a =
  match ruleOf d e a with
  | Some r => Some r
  | None => resolve p e a
  end.
Proof.
  intros Hg. unfold resolve, ruleOf. cbn [elementAttributes globalAttributes patch].
  rewrite mergeRules_lookup, Hg, (left_id_L ∅ (∪)).
  destruct (dRules d !! e) as [n|], (elementAttributes p !! e) as [o|]; cbn;
    rewrite ?lookup_union; try reflexivity;
    repeat match goal with
           | |- context [?x !! a] => destruct (x !! a)
           end; reflexivity.
Qed.

Lemma tables_rules : dRules (delta CAllowTables) = rulesOfMatrix tableMatrix.
Proof. vm_compute. exact eq_refl. Qed.

Lemma lists_rules : dRules (delta CAllowLists) = rulesOfMatrix listMatrix.
Proof. vm_compute. exact eq_refl. Qed.

(** X12: after [AllowTables] the rule of an (element, attribute) pair is the
    one the table of its body gives, whatever rule the pair had before, and
    a pair outside the table resolves as before; global rules and the URL
    policy are not touched. *)
Theorem AllowTables_matrix (p : Policy) (e a : string) :
  resolve (AllowTables p) e a =
    match lookupRule e a tableMatrix with
    | Some r => Some r
    | None => resolve p e a
    end /\
  globalAttributes (AllowTables p) = globalAttributes p /\
  urlPolicy (AllowTables p) = urlPolicy p.
Proof.
  split; [|split; reflexivity].
  rewrite (call_patch CAllowTables p : AllowTables p = _), resolve_patch by reflexivity.
  unfold ruleOf. rewrite tables_rules, lookup_matrix. reflexivity.
Qed.

(** X13: after [AllowLists], [type] on [ol], [ul] and [li] is bound to
    [ListType] and [value] on [li] to [Integer]; [dl], [dt] and [dd] get no
    rule of their own, and every other pair resolves as before. *)
Theorem AllowLists_matrix (p : Policy) (e a : string) :
  resolve (AllowLists p) e a =
    match lookupRule e a listMatrix with
    | Some r => Some r
    | None => resolve p e a
    end /\
  globalAttributes (AllowLists p) = globalAttributes p /\
  urlPolicy (AllowLists p) = urlPolicy p.
Proof.
  split; [|split; reflexivity].
  rewrite (call_patch CAllowLists p : AllowLists p = _), resolve_patch by reflexivity.
  unfold ruleOf. rewrite lists_rules, lookup_matrix. reflexivity.
Qed.

(** ** How the composite helpers compose *)

(** X14: the composite helpers commute: two of them called in either order
    leave the same policy. *)
Theorem composites_commute (c1 c2 : Call) (p : Policy) :
  composite c1 = true -> composite c2 = true ->
  call (call p c1) c2 = call (call p c2) c1.
Proof.
  intros H1 H2. rewrite !call_patch, !patch_after. f_equal.
  destruct c1; try discriminate; destruct c2; try discriminate; vm_compute; exact eq_refl.
Qed.

(** X15: [AllowImages] includes [AllowStandardURLs]: calling the latter
    before or after [AllowImages] changes nothing. *)
Theorem AllowImages_absorbs_standard_URLs (p : Policy) :
  AllowImages (AllowStandardURLs p) = AllowImages p /\
  AllowStandardURLs (AllowImages p) = AllowImages p.
Proof.
  split.
  - change (call (call p CAllowStandardURLs) CAllowImages = call p CAllowImages).
    rewrite !call_patch, patch_after. f_equal.
  - change (call (call p CAllowImages) CAllowStandardURLs = call p CAllowImages).
    rewrite !call_patch, patch_after. f_equal.
Qed.

(** ** URL admission under the standard policy *)










Section ImageSources.

Variable unicode : string -> rune -> bool.


End ImageSources.

(** ** The year of [ISO8601] *)

Section ISO8601Facts.

Variable unicode : string -> rune -> bool.

Lemma ISO8601_shape :
  exists R, ISO8601 =
            Cat Bol (Cat (Cap (Cat (Quest iso_sign) (Rep d 4 (Some 4%nat))))
                         (Cat (Quest R) Eol)).
Proof. eexists. reflexivity. Qed.

Lemma sign_class (x : rune) :
  in_class unicode false false [IEsc "+"; IChr "-"] x = is_sign x.
Proof.
  unfold in_class, variants, is_sign. cbn [existsb xorb in_item].
  change (N_of_ascii "+") with 43. change (N_of_ascii "-") with 45.
  rewrite !orb_false_r. reflexivity.
Qed.

Lemma sign_not_digit (x : rune) : is_sign x = true -> in_perl Pd x = false.
Proof.
  unfold is_sign, in_perl. intros [H|H]%orb_true_iff; apply N.eqb_eq in H; subst x; reflexivity.
Qed.

Lemma four_digits (K : cont_t) (at0 : bool) (l : list rune) :
  times (m unicode false d) 4 (upto (m unicode false d) 0 K) at0 l =
  match digits_then 4 l with
  | Some rest => K false rest
  | None => false
  end.
Proof.
  cbn [times upto m d digits_then]. unfold one.
  destruct l as [|x1 l]; [reflexivity|]. destruct (in_perl Pd x1); [|reflexivity].
  destruct l as [|x2 l]; [reflexivity|]. destruct (in_perl Pd x2); [|reflexivity].
  destruct l as [|x3 l]; [reflexivity|]. destruct (in_perl Pd x3); [|reflexivity].
  destruct l as [|x4 l]; [reflexivity|]. destruct (in_perl Pd x4); [|reflexivity].
  cbn [andb]. apply orb_false_r.
Qed.

Lemma year_here (R : regex) (at0 : bool) (l : list rune) :
  m unicode false
    (Cat Bol (Cat (Cap (Cat (Quest iso_sign) (Rep d 4 (Some 4%nat)))) R)) accept at0 l =
  at0 && match year_end l with
         | Some rest => m unicode false R accept false rest
         | None => false
         end.
Proof.
  change (m unicode false
            (Cat Bol (Cat (Cap (Cat (Quest iso_sign) (Rep d 4 (Some 4%nat)))) R))
            accept at0 l)
    with (at0 &&
          (one (in_class unicode false false [IEsc "+"; IChr "-"])
               (times (m unicode false d) 4
                      (upto (m unicode false d) 0 (m unicode false R accept))) at0 l ||
           times (m unicode false d) 4
                 (upto (m unicode false d) 0 (m unicode false R accept)) at0 l)).
  f_equal. rewrite four_digits. unfold one, year_end.
  destruct l as [|x t]; [reflexivity|].
  rewrite sign_class, four_digits. destruct (is_sign x) eqn:Hs; cbn [andb orb].
  - cbn [digits_then]. rewrite (sign_not_digit x Hs). apply orb_false_r.
  - reflexivity.
Qed.

Lemma ISO8601_search (l : list rune) :
  exists R,
    search unicode ISO8601 true l =
    match year_end l with
    | Some rest => m unicode false (Cat (Quest R) Eol) accept false rest
    | None => false
    end.
Proof.
  destruct ISO8601_shape as [R ->]. exists R.
  assert (L : forall t, search unicode
                (Cat Bol (Cat (Cap (Cat (Quest iso_sign) (Rep d 4 (Some 4%nat))))
                   (Cat (Quest R) Eol))) false t = false).
  { induction t as [|x t IH]; cbn [search]; rewrite year_here; [reflexivity | exact IH]. }
  destruct l as [|x t]; cbn [search]; rewrite year_here; cbn [andb];
    [apply orb_false_r | rewrite L; apply orb_false_r].
Qed.

Lemma digits_window (n : nat) (l : list rune) :
  window (repeat (in_perl Pd) n) l = true <-> digits_then n l <> None.
Proof.
  revert l. induction n as [|n IH]; intros l; cbn [repeat window digits_then].
  - split; [discriminate | reflexivity].
  - destruct l as [|x t]; [split; [discriminate | congruence]|].
    destruct (in_perl Pd x); cbn [andb]; [apply IH | split; [discriminate | congruence]].
Qed.

Lemma year_window (l : list rune) : has_year l = true <-> year_end l <> None.
Proof.
  unfold has_year, year_end. destruct l as [|x t].
  - cbn. split; [discriminate | congruence].
  - change (window (is_sign :: repeat (in_perl Pd) 4) (x :: t))
      with (is_sign x && window (repeat (in_perl Pd) 4) t).
    destruct (is_sign x) eqn:Hs; cbn [andb].
    + rewrite orb_true_iff, digits_window.
      split; [intros [H|H]; [exact H|] | intros H; left; exact H].
      cbn [repeat window] in H. rewrite (sign_not_digit x Hs) in H. discriminate.
    + cbn [orb]. apply digits_window.
Qed.

Lemma digit_high : ascii_only (in_perl Pd).
Proof. intros x Hx. apply high_not_digit. exact Hx. Qed.

Lemma sign_high : ascii_only is_sign.
Proof.
  intros x Hx. unfold is_sign.
  destruct (N.eqb_spec x 43); [lia|]. destruct (N.eqb_spec x 45); [lia|]. reflexivity.
Qed.

Lemma has_year_decode (s : string) : has_year (decode s) = has_year (bytes s).
Proof.
  unfold has_year, decode. rewrite !window_decode_loop; try lia; try reflexivity.
  - repeat constructor; apply digit_high.
  - constructor; [apply sign_high | repeat constructor; apply digit_high].
Qed.

Lemma digits_then_ascii (n : nat) (l rest : list rune) :
  digits_then n l = Some rest ->
  forallb (fun b => b <? 0x80) rest = true -> forallb (fun b => b <? 0x80) l = true.
Proof.
  revert l. induction n as [|n IH]; intros l; cbn [digits_then].
  - intros [= ->] H. exact H.
  - destruct l as [|x t]; [discriminate|]. destruct (in_perl Pd x) eqn:Hx; [|discriminate].
    intros H Hr. cbn [forallb]. rewrite (IH t H Hr), andb_true_r.
    apply N.ltb_lt. destruct (N.ltb_spec x 0x80) as [Hlt|Hge]; [exact Hlt|].
    rewrite (digit_high x Hge) in Hx. discriminate.
Qed.

Lemma year_only_ascii (l : list rune) :
  year_end l = Some [] -> forallb (fun b => b <? 0x80) l = true.
Proof.
  unfold year_end. destruct l as [|x t]; [discriminate|].
  destruct (is_sign x) eqn:Hs.
  - intros H. cbn [forallb]. rewrite (digits_then_ascii 4 t [] H eq_refl), andb_true_r.
    apply N.ltb_lt. destruct (N.ltb_spec x 0x80) as [Hlt|Hge]; [exact Hlt|].
    rewrite (sign_high x Hge) in Hs. discriminate.
  - intros H. exact (digits_then_ascii 4 (x :: t) [] H eq_refl).
Qed.

(** X18: [ISO8601] is anchored at both ends and starts with the year: a
    text it accepts begins with four digits, with or without a sign before
    them, and a text that is such a year and nothing more is accepted. *)
Theorem ISO8601_year (s : string) :
  (MatchString unicode ISO8601 s = true -> has_year (bytes s) = true) /\
  (year_end (bytes s) = Some [] -> MatchString unicode ISO8601 s = true).
Proof.
  unfold MatchString. destruct (ISO8601_search (decode s)) as [R ->]. split.
  - intros H. rewrite <- has_year_decode. apply year_window.
    destruct (year_end (decode s)); [discriminate | discriminate H].
  - intros H. unfold decode.
    rewrite decode_loop_ascii by (try lia; apply year_only_ascii; exact H).
    rewrite H. cbn [m]. apply orb_true_r.
Qed.

End ISO8601Facts.

(** ** The further properties at concrete inputs *)

(** [CellAlign] accepts a text with [left] inside it, in capitals. *)
Lemma keyword_anywhere_accepted_witness :
  In (CellAlign, ["center"; "justify"; "left"; "right"; "char"]) vocabularies /\
  In "left"%string ["center"; "justify"; "left"; "right"; "char"]%string /\
  contains_fold "left" "xLEFTx" = true /\
  MatchString unicodeASCII CellAlign "xLEFTx" = true.
Proof.
  assert (Hr : In (CellAlign, ["center"; "justify"; "left"; "right"; "char"]%string)
                  vocabularies) by (left; reflexivity).
  assert (Hw : In "left"%string ["center"; "justify"; "left"; "right"; "char"]%string)
    by (right; right; left; reflexivity).
  repeat (split; [first [exact Hr | exact Hw | reflexivity]|]).
  exact (keyword_anywhere_accepted unicodeASCII CellAlign _ "left" "xLEFTx" Hr Hw eq_refl).
Defined.

(** [Direction] on two ASCII texts, one with a keyword and one without. *)
Lemma keyword_pattern_on_ascii_witness :
  In (Direction, ["rtl"; "ltr"]) vocabularies /\
  is_ascii_text "to the left" = true /\
  MatchString unicodeASCII Direction "to the left" =
    existsb (fun w => contains_fold w "to the left") ["rtl"; "ltr"].
Proof.
  assert (Hr : In (Direction, ["rtl"; "ltr"]%string) vocabularies)
    by (right; right; left; reflexivity).
  repeat (split; [first [exact Hr | reflexivity]|]).
  exact (keyword_pattern_on_ascii unicodeASCII Direction _ "to the left" Hr eq_refl).
Defined.

(** Tables then lists, and lists then tables, on the empty policy. *)
Lemma composites_commute_witness :
  composite CAllowTables = true /\ composite CAllowLists = true /\
  call (call emptyPolicy CAllowTables) CAllowLists =
  call (call emptyPolicy CAllowLists) CAllowTables.
Proof.
  repeat (split; [reflexivity|]).
  exact (composites_commute CAllowTables CAllowLists emptyPolicy eq_refl eq_refl).
Defined.

(** The year 44 BC. *)
Lemma ISO8601_year_witness :
  year_end (bytes "-0044") = Some [] /\
  MatchString unicodeASCII ISO8601 "-0044" = true /\
  has_year (bytes "-0044") = true.
Proof.
  split; [reflexivity|].
  split.
  - exact (proj2 (ISO8601_year unicodeASCII "-0044") eq_refl).
  - exact (proj1 (ISO8601_year unicodeASCII "-0044")
             (proj2 (ISO8601_year unicodeASCII "-0044") eq_refl)).
Defined.
